(** * spin-wheel: the geometry and motion core of the weighted prize wheel

    A shallow embedding of [util.js], [item.js], [constants.js] and the
    motion, layout and validation parts of [wheel.js].

    Numbers.  A JavaScript number is modelled by [num]: [NaN], the two
    infinities, or a finite value carried as a rational in lowest terms, so
    that two results with the same value are the same term; the sign of
    zero is not tracked.  The arithmetic is embedded twice.  In the first
    embedding finite arithmetic is exact: it carries the motion, the
    dragging and the validation, whose properties do not rest on how a
    result is rounded.  In the second, the module [Double], an operation
    gives the exact result rounded to the nearest binary64 number
    ([round64]: 53 significant bits, a tie going to the even significand,
    no exponent below -1074, an infinity from [2^1024] on), which is what
    IEEE 754 asks of the operations of JavaScript; it carries the angle
    arithmetic and the slice layout, where the roundings show.  [round64]
    is compared with the binary64 operations of the kernel on a grid of
    operands.

    Effects.  A method of the wheel is a function on the record [Wheel];
    a method that can throw returns a [Completion], which carries the object
    as it is when the exception leaves the method.  Readings of the clock
    ([performance.now()]) and of [Math.random()] are arguments.  Callbacks
    are user code: raising a notification is recorded in the wheel's [log].
    Drawing and frame scheduling ([refresh], [resize], [draw]) are not
    modelled. *)

From Stdlib Require Import ZArith QArith Qround Qabs Qreduction Qpower Lqa Lia.
From Stdlib Require Import PrimFloat.
From Stdlib Require SpecFloat FloatOps.
From Stdlib Require Import List Bool String.
Import ListNotations.

Local Open Scope string_scope.
Local Open Scope list_scope.
Local Open Scope Q_scope.

(** ** JavaScript numbers *)

Inductive num : Type :=
| NaN
| PInf
| NInf
| Fin (q : Q).

(** A finite result, in lowest terms. *)
Definition fin (q : Q) : num := Fin (Qred q).

Definition Qis0 (q : Q) : bool := Qeq_bool q 0.
Definition Qpos (q : Q) : bool := negb (Qle_bool q 0).
Definition Qneg (q : Q) : bool := negb (Qle_bool 0 q).

Definition nopp (a : num) : num :=
  match a with
  | NaN => NaN
  | PInf => NInf
  | NInf => PInf
  | Fin x => fin (- x)
  end.

(** [a + b] *)
Definition nadd (a b : num) : num :=
  match a, b with
  | NaN, _ | _, NaN => NaN
  | PInf, NInf | NInf, PInf => NaN
  | PInf, _ | _, PInf => PInf
  | NInf, _ | _, NInf => NInf
  | Fin x, Fin y => fin (x + y)
  end.

(** [a - b] *)
Definition nsub (a b : num) : num :=
  match a, b with
  | NaN, _ | _, NaN => NaN
  | PInf, PInf | NInf, NInf => NaN
  | PInf, _ | _, NInf => PInf
  | NInf, _ | _, PInf => NInf
  | Fin x, Fin y => fin (x - y)
  end.

(** An infinity times a finite factor. *)
Definition inf_times (positive : bool) (y : Q) : num :=
  if Qis0 y then NaN
  else if Bool.eqb positive (Qpos y) then PInf else NInf.

(** [a * b] *)
Definition nmul (a b : num) : num :=
  match a, b with
  | NaN, _ | _, NaN => NaN
  | PInf, PInf | NInf, NInf => PInf
  | PInf, NInf | NInf, PInf => NInf
  | PInf, Fin y | Fin y, PInf => inf_times true y
  | NInf, Fin y | Fin y, NInf => inf_times false y
  | Fin x, Fin y => fin (x * y)
  end.

(** [a / b]: a finite non-zero number over zero is an infinity, zero over
    zero is [NaN]. *)
Definition ndiv (a b : num) : num :=
  match a, b with
  | NaN, _ | _, NaN => NaN
  | Fin _, PInf | Fin _, NInf => Fin 0
  | PInf, Fin y => if Qneg y then NInf else PInf
  | NInf, Fin y => if Qneg y then PInf else NInf
  | Fin x, Fin y =>
      if Qis0 y then
        (if Qis0 x then NaN else if Qpos x then PInf else NInf)
      else fin (x / y)
  | _, _ => NaN
  end.

(** The integer part of a rational, towards zero. *)
Definition Qtrunc (q : Q) : Z :=
  if Qle_bool 0 q then Qfloor q else Qceiling q.

(** The remainder of a truncating division: the sign of the dividend. *)
Definition Qrem (x y : Q) : Q := x - y * inject_Z (Qtrunc (x / y)).

(** [a % b] *)
Definition nrem (a b : num) : num :=
  match a, b with
  | Fin x, Fin y => if Qis0 y then NaN else fin (Qrem x y)
  | Fin x, PInf | Fin x, NInf => Fin x
  | _, _ => NaN
  end.

(** [a < b], [a > b], [a <= b], [a >= b] and [a === b] on numbers: every
    comparison with [NaN] is false. *)
Definition nlt (a b : num) : bool :=
  match a, b with
  | NaN, _ | _, NaN => false
  | _, NInf | PInf, _ => false
  | NInf, _ | _, PInf => true
  | Fin x, Fin y => negb (Qle_bool y x)
  end.

Definition ngt (a b : num) : bool := nlt b a.

Definition nle (a b : num) : bool :=
  match a, b with
  | NaN, _ | _, NaN => false
  | NInf, _ | _, PInf => true
  | _, NInf | PInf, _ => false
  | Fin x, Fin y => Qle_bool x y
  end.

Definition nge (a b : num) : bool := nle b a.

Definition neq (a b : num) : bool :=
  match a, b with
  | PInf, PInf | NInf, NInf => true
  | Fin x, Fin y => Qeq_bool x y
  | _, _ => false
  end.

(** [Math.min] and [Math.max] of two numbers. *)
Definition nmin (a b : num) : num :=
  match a, b with
  | NaN, _ | _, NaN => NaN
  | _, _ => if nle a b then a else b
  end.

Definition nmax (a b : num) : num :=
  match a, b with
  | NaN, _ | _, NaN => NaN
  | _, _ => if nle a b then b else a
  end.

(** [Number(f.toFixed(digits))]: the nearest multiple of [10^-digits], a
    tie going away from zero; from [1e21] on, [toFixed] prints the number
    itself. *)
Definition Qtofixed (digits : positive) (x : Q) : Q :=
  if Qle_bool (inject_Z (10 ^ 21)) (Qabs x) then x
  else
    let scale := inject_Z (Z.pow_pos 10 digits) in
    let n := Qfloor (Qabs x * scale + (1 # 2)) in
    (if Qle_bool 0 x then inject_Z n else - inject_Z n) / scale.

Definition toFixedNumber (digits : positive) (f : num) : num :=
  match f with
  | Fin x => fin (Qtofixed digits x)
  | other => other
  end.

(** ** util.js *)

Definition isAngleBetween (angle arcStart arcEnd : num) : bool :=
  if nlt arcStart arcEnd then nle arcStart angle && nlt angle arcEnd
  else nle arcStart angle || nlt angle arcEnd.

Definition addAngle (a b : num) : num :=
  let sum := nadd a b in
  let result :=
    if ngt sum (Fin 0) then nrem sum (Fin 360)
    else nadd (Fin 360) (nrem sum (Fin 360)) in
  if neq result (Fin 360) then Fin 0 else result.

Definition diffAngle (a b : num) : num :=
  let offsetFrom180 := nsub (Fin 180) b in
  let aWithOffset := addAngle a offsetFrom180 in
  nsub (Fin 180) aWithOffset.

Definition fixFloat (f : num) : num := toFixedNumber 9 f.

Definition calcWheelRotationForTargetAngle
    (currentRotation targetAngle direction : num) : num :=
  let angle := nrem (nadd (nrem currentRotation (Fin 360)) targetAngle) (Fin 360) in
  let angle := fixFloat angle in
  let angle :=
    nrem (if neq direction (Fin 1) then nsub (Fin 360) angle
          else nadd (Fin 360) angle) (Fin 360) in
  let angle := nmul angle direction in
  nadd currentRotation angle.

Definition getRandomFloat (random min max : num) : num :=
  toFixedNumber 14 (nadd (nmul random (nsub max min)) min).

(** ** JavaScript values *)

#[local] Set Warnings "-register-all".

Inductive value : Type :=
| VUndefined
| VNull
| VBool (b : bool)
| VNum (n : num)
| VStr (s : string)
| VArray (elems : list value)
| VObject (fields : list (string * value))
| VFunction (name : string).

Definition typeof (v : value) : string :=
  match v with
  | VUndefined => "undefined"
  | VNull | VArray _ | VObject _ => "object"
  | VBool _ => "boolean"
  | VNum _ => "number"
  | VStr _ => "string"
  | VFunction _ => "function"
  end.

Definition isUndefined (v : value) : bool :=
  match v with VUndefined => true | _ => false end.

Definition isNull (v : value) : bool :=
  match v with VNull => true | _ => false end.

Definition isArray (v : value) : bool :=
  match v with VArray _ => true | _ => false end.

Definition isNaN (v : value) : bool :=
  match v with VNum NaN => true | _ => false end.

(** The number held by a value that is a number. *)
Definition numOf (v : value) : num :=
  match v with VNum n => n | _ => NaN end.

Definition isObject (v : value) : bool :=
  String.eqb (typeof v) "object" && negb (isArray v) && negb (isNull v).

Definition isNumber (n : value) : bool :=
  String.eqb (typeof n) "number" && negb (isNaN n).

(** The outcome of an expression that may throw. *)
Inductive result (A : Type) : Type :=
| Ok (a : A)
| Error (message : string).
Arguments Ok {A} a.
Arguments Error {A} message.

(** [setProp({val, isValid, errorMessage, defaultValue, action})].  A
    setter that passes no [action] passes [fun _ => Ok val] here, which is
    what [setProp] returns for a valid value when [action] is null. *)
Definition setProp {A : Type} (val : value) (isValid : bool)
    (errorMessage : string) (defaultValue : A)
    (action : unit -> result A) : result A :=
  if isValid then action tt
  else if isUndefined val then Ok defaultValue
  else Error errorMessage.

(** [v.name]: reading a member of [null] or [undefined] throws. *)
Fixpoint lookupField (name : string) (fields : list (string * value)) : value :=
  match fields with
  | [] => VUndefined
  | (k, v) :: rest => if String.eqb k name then v else lookupField name rest
  end.

Definition getMember (v : value) (name : string) : result value :=
  match v with
  | VUndefined | VNull => Error "TypeError: cannot read properties"
  | VObject fields => Ok (lookupField name fields)
  | _ => Ok VUndefined
  end.

(** ** item.js *)

Record Item : Type := mkItem {
  backgroundColor : option string;
  image : option string;
  imageOpacity : num;
  imageRadius : num;
  imageRotation : num;
  imageScale : num;
  label : string;
  labelColor : option string;
  itemValue : value;
  weight : num
}.

Module ItemDefaults.
Definition backgroundColor : option string := None.
Definition image : option string := None.
Definition imageOpacity : num := Fin 1.
Definition imageRadius : num := Fin (1 # 2).
Definition imageRotation : num := Fin 0.
Definition imageScale : num := Fin 1.
Definition label : string := "".
Definition labelColor : option string := None.
Definition value : value := VNull.
Definition weight : num := Fin 1.
End ItemDefaults.

Definition defaultItem : Item :=
  mkItem ItemDefaults.backgroundColor ItemDefaults.image
    ItemDefaults.imageOpacity ItemDefaults.imageRadius
    ItemDefaults.imageRotation ItemDefaults.imageScale ItemDefaults.label
    ItemDefaults.labelColor ItemDefaults.value ItemDefaults.weight.

Inductive ItemProp : Type :=
| IBackgroundColor | IImage | IImageOpacity | IImageRadius | IImageRotation
| IImageScale | ILabel | ILabelColor | IValue | IWeight.

(** The setters of [Item]: a value of the expected type is stored, anything
    else stores the default; none of them throws. *)
Definition Item_set (p : ItemProp) (val : value) (it : Item) : Item :=
  let '(mkItem bg im op ra ro sc la lc va we) := it in
  match p with
  | IBackgroundColor =>
      mkItem (match val with VStr s => Some s | _ => ItemDefaults.backgroundColor end)
        im op ra ro sc la lc va we
  | IImage =>
      mkItem bg (match val with VStr s => Some s | _ => ItemDefaults.image end)
        op ra ro sc la lc va we
  | IImageOpacity =>
      mkItem bg im (match val with VNum n => n | _ => ItemDefaults.imageOpacity end)
        ra ro sc la lc va we
  | IImageRadius =>
      mkItem bg im op (match val with VNum n => n | _ => ItemDefaults.imageRadius end)
        ro sc la lc va we
  | IImageRotation =>
      mkItem bg im op ra (match val with VNum n => n | _ => ItemDefaults.imageRotation end)
        sc la lc va we
  | IImageScale =>
      mkItem bg im op ra ro (match val with VNum n => n | _ => ItemDefaults.imageScale end)
        la lc va we
  | ILabel =>
      mkItem bg im op ra ro sc (match val with VStr s => s | _ => ItemDefaults.label end)
        lc va we
  | ILabelColor =>
      mkItem bg im op ra ro sc la
        (match val with VStr s => Some s | _ => ItemDefaults.labelColor end) va we
  | IValue =>
      mkItem bg im op ra ro sc la lc
        (match val with VUndefined => ItemDefaults.value | _ => val end) we
  | IWeight =>
      mkItem bg im op ra ro sc la lc va
        (match val with VNum n => n | _ => ItemDefaults.weight end)
  end.

Definition itemPropName (p : ItemProp) : string :=
  match p with
  | IBackgroundColor => "backgroundColor"
  | IImage => "image"
  | IImageOpacity => "imageOpacity"
  | IImageRadius => "imageRadius"
  | IImageRotation => "imageRotation"
  | IImageScale => "imageScale"
  | ILabel => "label"
  | ILabelColor => "labelColor"
  | IValue => "value"
  | IWeight => "weight"
  end.

(** [Item.init(props)]: every setter in turn, on [props.<name>]. *)
Definition Item_init (props : list (string * value)) (it : Item) : Item :=
  fold_left (fun it p => Item_set p (lookupField (itemPropName p) props) it)
    [IBackgroundColor; IImage; IImageOpacity; IImageRadius; IImageRotation;
     IImageScale; ILabel; ILabelColor; IValue; IWeight]
    it.

(** [new Item(wheel, props)] for an object [props]. *)
Definition Item_new (props : list (string * value)) : Item :=
  Item_init props defaultItem.

(** ** Slice layout *)

Record ItemAngle : Type := mkAngle { angle_start : num; angle_end : num }.

Definition sumWeights (items : list Item) : num :=
  fold_left (fun weightSum i => nadd weightSum (weight i)) items (Fin 0).

Fixpoint pushAngles (weightedItemAngle lastItemAngle : num)
    (items : list Item) : list ItemAngle :=
  match items with
  | [] => []
  | item :: rest =>
      let itemAngle := nmul (weight item) weightedItemAngle in
      mkAngle lastItemAngle (nadd lastItemAngle itemAngle)
        :: pushAngles weightedItemAngle (nadd lastItemAngle itemAngle) rest
  end.

(** [angles[angles.length - 1].end = e] *)
Fixpoint setLastEnd (e : num) (angles : list ItemAngle) : list ItemAngle :=
  match angles with
  | [] => []
  | [a] => [mkAngle (angle_start a) e]
  | a :: rest => a :: setLastEnd e rest
  end.

(** [Wheel.getItemAngles(initialRotation)], on the item list. *)
Definition itemAngles (initialRotation : num) (items : list Item)
    : list ItemAngle :=
  let weightSum := sumWeights items in
  let weightedItemAngle := ndiv (Fin 360) weightSum in
  let angles := pushAngles weightedItemAngle initialRotation items in
  if (1 <? List.length items)%nat then
    match angles with
    | [] => angles
    | first :: _ => setLastEnd (nadd (angle_start first) (Fin 360)) angles
    end
  else angles.

(** [angle.start + ((angle.end - angle.start) / 2)] *)
Definition centerOf (angle : ItemAngle) : num :=
  nadd (angle_start angle)
    (ndiv (nsub (angle_end angle) (angle_start angle)) (Fin 2)).

(** ** constants.js *)

Definition dragCapturePeriod : num := Fin 250.

(** ** wheel.js: the object *)

(** The configurable properties of the wheel. *)
Inductive WheelProp : Type :=
| BorderColor | BorderWidth | Debug | Image | IsInteractive
| ItemBackgroundColors | ItemLabelAlign | ItemLabelBaselineOffset
| ItemLabelColors | ItemLabelFont | ItemLabelFontSizeMax | ItemLabelRadius
| ItemLabelRadiusMax | ItemLabelRotation | ItemLabelStrokeColor
| ItemLabelStrokeWidth | Items | LineColor | LineWidth | Offset
| OnCurrentIndexChange | OnRest | OnSpin | OverlayImage | PixelRatio
| PointerAngle | Radius | Rotation | RotationResistance | RotationSpeedMax.

Scheme Equality for WheelProp.

Record DragEvent : Type := mkDragEvent {
  distance : num;
  drag_x : num;
  drag_y : num;
  drag_now : num
}.

(** The notifications a wheel raises, with what they carry. *)
Inductive Event : Type :=
| CurrentIndexChange (currentIndex : option Z)
| Rest (currentIndex : option Z) (rotation : value)
| Spin (data : list (string * value)).

(** The fields of a wheel.  [_props] holds the backing field of every
    configurable property but [items], whose [Item] objects are in
    [_items]; a field that is [null] or a number is an [option].
    [_currentIndex] is [None] while it is undefined. *)
Record Wheel : Type := mkWheel {
  _props : WheelProp -> value;
  _items : list Item;
  _currentIndex : option Z;
  _isInitialising : bool;
  _rotationSpeed : num;
  _rotationDirection : num;
  _spinToTimeEnd : option num;
  _spinToTimeStart : num;
  _spinToStartRotation : num;
  _spinToEndRotation : num;
  _spinToEasingFunction : num -> num;
  _lastSpinFrameTime : option num;
  isDragging : bool;
  dragEvents : list DragEvent;
  log : list Event
}.

Definition with_props (x : WheelProp -> value) (w : Wheel) : Wheel :=
  mkWheel x (_items w) (_currentIndex w) (_isInitialising w) (_rotationSpeed
    w) (_rotationDirection w) (_spinToTimeEnd w) (_spinToTimeStart w)
    (_spinToStartRotation w) (_spinToEndRotation w) (_spinToEasingFunction w)
    (_lastSpinFrameTime w) (isDragging w) (dragEvents w) (log w).

Definition with_items (x : list Item) (w : Wheel) : Wheel :=
  mkWheel (_props w) x (_currentIndex w) (_isInitialising w) (_rotationSpeed
    w) (_rotationDirection w) (_spinToTimeEnd w) (_spinToTimeStart w)
    (_spinToStartRotation w) (_spinToEndRotation w) (_spinToEasingFunction w)
    (_lastSpinFrameTime w) (isDragging w) (dragEvents w) (log w).

Definition with_currentIndex (x : option Z) (w : Wheel) : Wheel :=
  mkWheel (_props w) (_items w) x (_isInitialising w) (_rotationSpeed w)
    (_rotationDirection w) (_spinToTimeEnd w) (_spinToTimeStart w)
    (_spinToStartRotation w) (_spinToEndRotation w) (_spinToEasingFunction w)
    (_lastSpinFrameTime w) (isDragging w) (dragEvents w) (log w).

Definition with_isInitialising (x : bool) (w : Wheel) : Wheel :=
  mkWheel (_props w) (_items w) (_currentIndex w) x (_rotationSpeed w)
    (_rotationDirection w) (_spinToTimeEnd w) (_spinToTimeStart w)
    (_spinToStartRotation w) (_spinToEndRotation w) (_spinToEasingFunction w)
    (_lastSpinFrameTime w) (isDragging w) (dragEvents w) (log w).

Definition with_rotationSpeed (x : num) (w : Wheel) : Wheel :=
  mkWheel (_props w) (_items w) (_currentIndex w) (_isInitialising w) x
    (_rotationDirection w) (_spinToTimeEnd w) (_spinToTimeStart w)
    (_spinToStartRotation w) (_spinToEndRotation w) (_spinToEasingFunction w)
    (_lastSpinFrameTime w) (isDragging w) (dragEvents w) (log w).

Definition with_rotationDirection (x : num) (w : Wheel) : Wheel :=
  mkWheel (_props w) (_items w) (_currentIndex w) (_isInitialising w)
    (_rotationSpeed w) x (_spinToTimeEnd w) (_spinToTimeStart w)
    (_spinToStartRotation w) (_spinToEndRotation w) (_spinToEasingFunction w)
    (_lastSpinFrameTime w) (isDragging w) (dragEvents w) (log w).

Definition with_spinToTimeEnd (x : option num) (w : Wheel) : Wheel :=
  mkWheel (_props w) (_items w) (_currentIndex w) (_isInitialising w)
    (_rotationSpeed w) (_rotationDirection w) x (_spinToTimeStart w)
    (_spinToStartRotation w) (_spinToEndRotation w) (_spinToEasingFunction w)
    (_lastSpinFrameTime w) (isDragging w) (dragEvents w) (log w).

Definition with_spinToTimeStart (x : num) (w : Wheel) : Wheel :=
  mkWheel (_props w) (_items w) (_currentIndex w) (_isInitialising w)
    (_rotationSpeed w) (_rotationDirection w) (_spinToTimeEnd w) x
    (_spinToStartRotation w) (_spinToEndRotation w) (_spinToEasingFunction w)
    (_lastSpinFrameTime w) (isDragging w) (dragEvents w) (log w).

Definition with_spinToStartRotation (x : num) (w : Wheel) : Wheel :=
  mkWheel (_props w) (_items w) (_currentIndex w) (_isInitialising w)
    (_rotationSpeed w) (_rotationDirection w) (_spinToTimeEnd w)
    (_spinToTimeStart w) x (_spinToEndRotation w) (_spinToEasingFunction w)
    (_lastSpinFrameTime w) (isDragging w) (dragEvents w) (log w).

Definition with_spinToEndRotation (x : num) (w : Wheel) : Wheel :=
  mkWheel (_props w) (_items w) (_currentIndex w) (_isInitialising w)
    (_rotationSpeed w) (_rotationDirection w) (_spinToTimeEnd w)
    (_spinToTimeStart w) (_spinToStartRotation w) x (_spinToEasingFunction w)
    (_lastSpinFrameTime w) (isDragging w) (dragEvents w) (log w).

Definition with_spinToEasingFunction (x : num -> num) (w : Wheel) : Wheel :=
  mkWheel (_props w) (_items w) (_currentIndex w) (_isInitialising w)
    (_rotationSpeed w) (_rotationDirection w) (_spinToTimeEnd w)
    (_spinToTimeStart w) (_spinToStartRotation w) (_spinToEndRotation w) x
    (_lastSpinFrameTime w) (isDragging w) (dragEvents w) (log w).

Definition with_lastSpinFrameTime (x : option num) (w : Wheel) : Wheel :=
  mkWheel (_props w) (_items w) (_currentIndex w) (_isInitialising w)
    (_rotationSpeed w) (_rotationDirection w) (_spinToTimeEnd w)
    (_spinToTimeStart w) (_spinToStartRotation w) (_spinToEndRotation w)
    (_spinToEasingFunction w) x (isDragging w) (dragEvents w) (log w).

Definition with_isDragging (x : bool) (w : Wheel) : Wheel :=
  mkWheel (_props w) (_items w) (_currentIndex w) (_isInitialising w)
    (_rotationSpeed w) (_rotationDirection w) (_spinToTimeEnd w)
    (_spinToTimeStart w) (_spinToStartRotation w) (_spinToEndRotation w)
    (_spinToEasingFunction w) (_lastSpinFrameTime w) x (dragEvents w) (log w).

Definition with_dragEvents (x : list DragEvent) (w : Wheel) : Wheel :=
  mkWheel (_props w) (_items w) (_currentIndex w) (_isInitialising w)
    (_rotationSpeed w) (_rotationDirection w) (_spinToTimeEnd w)
    (_spinToTimeStart w) (_spinToStartRotation w) (_spinToEndRotation w)
    (_spinToEasingFunction w) (_lastSpinFrameTime w) (isDragging w) x (log w).

Definition with_log (x : list Event) (w : Wheel) : Wheel :=
  mkWheel (_props w) (_items w) (_currentIndex w) (_isInitialising w)
    (_rotationSpeed w) (_rotationDirection w) (_spinToTimeEnd w)
    (_spinToTimeStart w) (_spinToStartRotation w) (_spinToEndRotation w)
    (_spinToEasingFunction w) (_lastSpinFrameTime w) (isDragging w)
    (dragEvents w) x.

(** The outcome of a method: it returns or it throws, and either way
    carries the object as the method leaves it. *)
Inductive Completion : Type :=
| Normal (w : Wheel)
| Thrown (message : string) (w : Wheel).

Definition storeProp (p : WheelProp) (v : value) (w : Wheel) : Wheel :=
  with_props (fun q => if WheelProp_beq q p then v else _props w q) w.

Definition _rotation (w : Wheel) : num := numOf (_props w Rotation).
Definition _pointerAngle (w : Wheel) : num := numOf (_props w PointerAngle).
Definition _rotationResistance (w : Wheel) : num :=
  numOf (_props w RotationResistance).
Definition _rotationSpeedMax (w : Wheel) : num :=
  numOf (_props w RotationSpeedMax).

(** *** Notifications *)

Definition raiseEvent_onCurrentIndexChange (w : Wheel) : Wheel :=
  with_log (log w ++ [CurrentIndexChange (_currentIndex w)]) w.

Definition raiseEvent_onRest (w : Wheel) : Wheel :=
  with_log (log w ++ [Rest (_currentIndex w) (_props w Rotation)]) w.

Definition raiseEvent_onSpin (data : list (string * value)) (w : Wheel) : Wheel :=
  with_log (log w ++ [Spin data]) w.

(** *** The current index *)

Definition getItemAngles (initialRotation : num) (w : Wheel) : list ItemAngle :=
  itemAngles initialRotation (_items w).

(** The first index [i], counted from [i0], whose range holds the pointer. *)
Fixpoint findPointed (pointerAngle : num) (i0 : Z) (angles : list ItemAngle)
    : option Z :=
  match angles with
  | [] => None
  | a :: rest =>
      if isAngleBetween pointerAngle (nrem (angle_start a) (Fin 360))
           (nrem (angle_end a) (Fin 360))
      then Some i0
      else findPointed pointerAngle (i0 + 1)%Z rest
  end.

Definition sameIndex (current : option Z) (i : Z) : bool :=
  match current with
  | Some c => Z.eqb c i
  | None => false
  end.

Definition refreshCurrentIndex (angles : list ItemAngle) (w : Wheel) : Wheel :=
  let w :=
    if (List.length (_items w) =? 0)%nat then with_currentIndex (Some (-1)%Z) w
    else w in
  match findPointed (_pointerAngle w) 0%Z angles with
  | None => w
  | Some i =>
      if sameIndex (_currentIndex w) i then w
      else
        let w := with_currentIndex (Some i) w in
        if negb (_isInitialising w) then raiseEvent_onCurrentIndexChange w
        else w
  end.

(** *** The setters *)

Definition isString (v : value) : bool := String.eqb (typeof v) "string".
Definition isBoolean (v : value) : bool := String.eqb (typeof v) "boolean".
Definition isFunction (v : value) : bool := String.eqb (typeof v) "function".

Definition isValid (p : WheelProp) (val : value) : bool :=
  match p with
  | BorderColor | ItemLabelAlign | ItemLabelFont | ItemLabelStrokeColor
  | LineColor => isString val
  | BorderWidth | ItemLabelBaselineOffset | ItemLabelFontSizeMax
  | ItemLabelRadius | ItemLabelRadiusMax | ItemLabelRotation
  | ItemLabelStrokeWidth | LineWidth | PixelRatio | Radius | Rotation
  | RotationResistance => isNumber val
  | Debug | IsInteractive => isBoolean val
  | Image | OverlayImage => isString val || isNull val
  | ItemBackgroundColors | ItemLabelColors | Items => isArray val
  | Offset => isObject val
  | OnCurrentIndexChange | OnRest | OnSpin => isFunction val || isNull val
  | PointerAngle | RotationSpeedMax =>
      isNumber val && nge (numOf val) (Fin 0)
  end.

Definition errorMessage (p : WheelProp) : string :=
  match p with
  | BorderColor => "Wheel.borderColor must be a string"
  | BorderWidth => "Wheel.borderWidth must be a number"
  | Debug => "Wheel.debug must be a boolean"
  | Image => "Wheel.image must be a url (string) or null"
  | IsInteractive => "Wheel.isInteractive must be a boolean"
  | ItemBackgroundColors => "Wheel.itemBackgroundColors must be an array"
  | ItemLabelAlign => "Wheel.itemLabelAlign must be a string"
  | ItemLabelBaselineOffset => "Wheel.itemLabelBaselineOffset must be a number"
  | ItemLabelColors => "Wheel.itemLabelColors must be an array"
  | ItemLabelFont => "Wheel.itemLabelFont must be a string"
  | ItemLabelFontSizeMax => "Wheel.itemLabelFontSizeMax must be a number"
  | ItemLabelRadius => "Wheel.itemLabelRadius must be a number"
  | ItemLabelRadiusMax => "Wheel.itemLabelRadiusMax must be a number"
  | ItemLabelRotation => "Wheel.itemLabelRotation must be a number"
  | ItemLabelStrokeColor => "Wheel.itemLabelStrokeColor must be a string"
  | ItemLabelStrokeWidth => "Wheel.itemLabelStrokeWidth must be a number"
  | Items => "Wheel.items must be an array of Items"
  | LineColor => "Wheel.lineColor must be a string"
  | LineWidth => "Wheel.lineWidth must be a number"
  | Offset => "Wheel.offset must be an object"
  | OnCurrentIndexChange => "Wheel.onCurrentIndexChange must be a function or null"
  | OnRest => "Wheel.onRest must be a function or null"
  | OnSpin => "Wheel.onSpin must be a function or null"
  | OverlayImage => "Wheel.overlayImage must be a url (string) or null"
  | PixelRatio => "Wheel.pixelRatio must be a number"
  | PointerAngle => "Wheel.pointerAngle must be a number between 0 and 360"
  | Radius => "Wheel.radius must be a number"
  | Rotation => "Wheel.rotation must be a number"
  | RotationResistance => "Wheel.rotationResistance must be a number"
  | RotationSpeedMax => "Wheel.rotationSpeedMax must be a number >= 0"
  end.

(** [Defaults.wheel] *)
Definition defaultValue (p : WheelProp) : value :=
  match p with
  | BorderColor => VStr "#000"
  | BorderWidth => VNum (Fin 1)
  | Debug => VBool false
  | Image => VNull
  | IsInteractive => VBool true
  | ItemBackgroundColors => VArray [VStr "#fff"]
  | ItemLabelAlign => VStr "right"
  | ItemLabelBaselineOffset => VNum (Fin 0)
  | ItemLabelColors => VArray [VStr "#000"]
  | ItemLabelFont => VStr "sans-serif"
  | ItemLabelFontSizeMax => VNum (Fin 500)
  | ItemLabelRadius => VNum (Fin (85 # 100))
  | ItemLabelRadiusMax => VNum (Fin (2 # 10))
  | ItemLabelRotation => VNum (Fin 0)
  | ItemLabelStrokeColor => VStr "#fff"
  | ItemLabelStrokeWidth => VNum (Fin 0)
  | Items => VArray []
  | LineColor => VStr "#000"
  | LineWidth => VNum (Fin 1)
  | Offset => VObject [("w", VNum (Fin 0)); ("h", VNum (Fin 0))]
  | OnCurrentIndexChange => VNull
  | OnRest => VNull
  | OnSpin => VNull
  | OverlayImage => VNull
  | PixelRatio => VNum (Fin 0)
  | PointerAngle => VNum (Fin 0)
  | Radius => VNum (Fin (95 # 100))
  | Rotation => VNum (Fin 0)
  | RotationResistance => VNum (Fin (-35))
  | RotationSpeedMax => VNum (Fin 300)
  end.

(** The [action] of the setters that have one: an image is loaded from
    its url, the pointer angle is reduced modulo 360. *)
Definition action (p : WheelProp) (val : value) : unit -> result value :=
  fun _ =>
    match p with
    | Image | OverlayImage =>
        if isNull val then Ok VNull else Ok (VObject [("src", val)])
    | PointerAngle => Ok (VNum (nrem (numOf val) (Fin 360)))
    | _ => Ok val
    end.

(** The [action] of the [items] setter: a new [Item] from nine members of
    each element (not [imageOpacity]). *)
Definition itemMembers : list string :=
  ["backgroundColor"; "image"; "imageRadius"; "imageRotation";
   "imageScale"; "label"; "labelColor"; "value"; "weight"].

Fixpoint readMembers (item : value) (names : list string)
    : result (list (string * value)) :=
  match names with
  | [] => Ok []
  | name :: rest =>
      match getMember item name with
      | Error m => Error m
      | Ok v =>
          match readMembers item rest with
          | Error m => Error m
          | Ok props => Ok ((name, v) :: props)
          end
      end
  end.

Fixpoint newItems (val : list value) : result (list Item) :=
  match val with
  | [] => Ok []
  | item :: rest =>
      match readMembers item itemMembers with
      | Error m => Error m
      | Ok props =>
          match newItems rest with
          | Error m => Error m
          | Ok v => Ok (Item_new props :: v)
          end
      end
  end.

Definition itemsAction (val : value) : unit -> result (list Item) :=
  fun _ => match val with VArray elems => newItems elems | _ => Ok [] end.

(** What a setter does after the assignment, other than drawing. *)
Definition afterSet (p : WheelProp) (w : Wheel) : Wheel :=
  match p with
  | Rotation | Items => refreshCurrentIndex (getItemAngles (_rotation w) w) w
  | PixelRatio => with_dragEvents [] w
  | _ => w
  end.

(** [wheel.<p> = val] *)
Definition Wheel_set (p : WheelProp) (val : value) (w : Wheel) : Completion :=
  match p with
  | Items =>
      match setProp val (isValid Items val) (errorMessage Items) []
              (itemsAction val) with
      | Error m => Thrown m w
      | Ok v => Normal (afterSet Items (with_items v w))
      end
  | _ =>
      match setProp val (isValid p val) (errorMessage p) (defaultValue p)
              (action p val) with
      | Error m => Thrown m w
      | Ok v => Normal (afterSet p (storeProp p v w))
      end
  end.

(** *** Spinning *)

Definition stop (w : Wheel) : Wheel :=
  let w := with_spinToTimeEnd None w in
  let w := with_rotationSpeed (Fin 0) w in
  with_lastSpinFrameTime None w.

Definition limitSpeed (speed max : num) : num :=
  let newSpeed := nmin speed max in
  nmax newSpeed (nopp max).

(** [beginSpin(speed, spinMethod)]; [now] is the clock it reads. *)
Definition beginSpin (speed : num) (spinMethod : string) (now : num)
    (w : Wheel) : Wheel :=
  let w := stop w in
  let w := with_rotationSpeed (limitSpeed speed (_rotationSpeedMax w)) w in
  let w := with_lastSpinFrameTime (Some now) w in
  let w :=
    with_rotationDirection
      (if nge (_rotationSpeed w) (Fin 0) then Fin 1 else Fin (-1)) w in
  if negb (neq (_rotationSpeed w) (Fin 0)) then
    raiseEvent_onSpin
      [("method", VStr spinMethod);
       ("rotationSpeed", VNum (_rotationSpeed w));
       ("rotationResistance", _props w RotationResistance)] w
  else w.

(** A missing argument takes the default of the parameter. *)
Definition orDefault (v : value) (d : value) : value :=
  if isUndefined v then d else v.

Definition spin (rotationSpeed : value) (now : num) (w : Wheel) : Completion :=
  let rotationSpeed := orDefault rotationSpeed (VNum (Fin 0)) in
  if negb (isNumber rotationSpeed) then
    Thrown "rotationSpeed must be a number" w
  else
    let w := with_dragEvents [] w in
    Normal (beginSpin (numOf rotationSpeed) "spin" now w).

Definition getRotationSpeedPlusDrag (delta : num) (w : Wheel) : num :=
  let newRotationSpeed :=
    nadd (_rotationSpeed w)
      (nmul (nmul (_rotationResistance w) (ndiv delta (Fin 1000)))
         (_rotationDirection w)) in
  if (neq (_rotationDirection w) (Fin 1) && nlt newRotationSpeed (Fin 0))
     || (neq (_rotationDirection w) (Fin (-1)) && nge newRotationSpeed (Fin 0))
  then Fin 0
  else newRotationSpeed.

(** [animateRotation(now)]: one tick of the animation. *)
Definition animateRotation (now : num) (w : Wheel) : Completion :=
  match _spinToTimeEnd w with
  | Some spinToTimeEnd =>
      if nge now spinToTimeEnd then
        match Wheel_set Rotation (VNum (_spinToEndRotation w)) w with
        | Thrown m w => Thrown m w
        | Normal w =>
            let w := with_spinToTimeEnd None w in
            Normal (raiseEvent_onRest w)
        end
      else
        let duration := nsub spinToTimeEnd (_spinToTimeStart w) in
        let delta := ndiv (nsub now (_spinToTimeStart w)) duration in
        let delta := if nlt delta (Fin 0) then Fin 0 else delta in
        let distance := nsub (_spinToEndRotation w) (_spinToStartRotation w) in
        Wheel_set Rotation
          (VNum (nadd (_spinToStartRotation w)
                   (nmul distance (_spinToEasingFunction w delta)))) w
  | None =>
      match _lastSpinFrameTime w with
      | Some lastSpinFrameTime =>
          let delta := nsub now lastSpinFrameTime in
          if ngt delta (Fin 0) then
            match
              Wheel_set Rotation
                (VNum (nadd (_rotation w)
                         (nrem (nmul (ndiv delta (Fin 1000)) (_rotationSpeed w))
                            (Fin 360)))) w
            with
            | Thrown m w => Thrown m w
            | Normal w =>
                let w := with_rotationSpeed (getRotationSpeedPlusDrag delta w) w in
                if neq (_rotationSpeed w) (Fin 0) then
                  let w := raiseEvent_onRest w in
                  Normal (with_lastSpinFrameTime None w)
                else Normal (with_lastSpinFrameTime (Some now) w)
            end
          else Normal w
      | None => Normal w
      end
  end.

(** *** Dragging *)

(** [dragStart(point)]; [p_x] and [p_y] are the point in the coordinates
    of the canvas, [now] the clock it reads. *)
Definition dragStart (p_x p_y now : num) (w : Wheel) : Wheel :=
  let w := with_isDragging true w in
  let w := stop w in
  with_dragEvents [mkDragEvent (Fin 0) p_x p_y now] w.

Definition isTrue (v : value) : bool :=
  match v with VBool true => true | _ => false end.

Section DragMove.

(** [getAngleFromCenter], the angle of a point from the center of the
    wheel: it is computed with [Math.atan2] from a center that depends on
    the size of the container. *)
Variable getAngleFromCenter : num -> num -> num.

(** [dragMove(point)]: the new event is put first, and its distance is
    added to the rotation. *)
Definition dragMove (p_x p_y now : num) (w : Wheel) : Completion :=
  let a := getAngleFromCenter p_x p_y in
  let lastAngle :=
    match dragEvents w with
    | lastDragPoint :: _ =>
        getAngleFromCenter (drag_x lastDragPoint) (drag_y lastDragPoint)
    | [] => getAngleFromCenter (Fin 0) (Fin 0)
    end in
  let angleSinceLastMove := diffAngle lastAngle a in
  let w :=
    with_dragEvents
      (mkDragEvent angleSinceLastMove p_x p_y now :: dragEvents w) w in
  let w :=
    if isTrue (_props w Debug) && (40 <=? List.length (dragEvents w))%nat
    then with_dragEvents (removelast (dragEvents w)) w
    else w in
  Wheel_set Rotation (VNum (nadd (_rotation w) angleSinceLastMove)) w.

End DragMove.

Definition isDragEventTooOld (now : num) (event : DragEvent) : bool :=
  ngt (nsub now (drag_now event)) dragCapturePeriod.

(** The loop of [dragEnd]: the distance summed so far and the events kept. *)
Fixpoint sumDragEvents (now : num) (dragDistance : num)
    (events : list DragEvent) : num * list DragEvent :=
  match events with
  | [] => (dragDistance, [])
  | event :: rest =>
      if negb (isDragEventTooOld now event) then
        let '(total, kept) :=
          sumDragEvents now (nadd dragDistance (distance event)) rest in
        (total, event :: kept)
      else (dragDistance, [])
  end.

(** [dragEnd()]; [now] is the clock it reads, [nowSpin] the clock
    [beginSpin] reads after it. *)
Definition dragEnd (now nowSpin : num) (w : Wheel) : Wheel :=
  let w := with_isDragging false w in
  let '(dragDistance, kept) := sumDragEvents now (Fin 0) (dragEvents w) in
  let w := with_dragEvents kept w in
  if neq dragDistance (Fin 0) then w
  else
    beginSpin (nmul dragDistance (ndiv (Fin 1000) dragCapturePeriod))
      "interact" nowSpin w.

(** *** Spinning to a rotation or to an item *)

Section SpinTo.

(** [util.easeSinOut], the sine easing; its values are not rational. *)
Variable easeSinOut : num -> num.

Definition animate (newRotation duration : num)
    (easingFunction : option (num -> num)) (now : num) (w : Wheel) : Wheel :=
  let w := with_spinToStartRotation (_rotation w) w in
  let w := with_spinToEndRotation newRotation w in
  let w := with_spinToTimeStart now w in
  let w := with_spinToTimeEnd (Some (nadd (_spinToTimeStart w) duration)) w in
  with_spinToEasingFunction
    (match easingFunction with Some f => f | None => easeSinOut end) w.

Definition spinTo (rotation duration : value)
    (easingFunction : option (num -> num)) (now : num) (w : Wheel)
    : Completion :=
  let rotation := orDefault rotation (VNum (Fin 0)) in
  let duration := orDefault duration (VNum (Fin 0)) in
  if negb (isNumber rotation) then
    Thrown "Error: rotation must be a number" w
  else if negb (isNumber duration) then
    Thrown "Error: duration must be a number" w
  else
    let w := stop w in
    let w := with_dragEvents [] w in
    let w := animate (numOf rotation) (numOf duration) easingFunction now w in
    Normal
      (raiseEvent_onSpin
         [("method", VStr "spinto"); ("targetRotation", rotation);
          ("duration", duration)] w).

(** [spinToItem]: [random] is the value of [Math.random()] read when the
    item's angle is drawn at random.  The items of a wheel are distinct
    objects, so [getIndex] of [items[itemIndex]] is [itemIndex]. *)
Definition spinToItem (itemIndex : nat) (duration : num)
    (spinToCenter : bool) (numberOfRevolutions direction : num)
    (easingFunction : option (num -> num)) (random now : num) (w : Wheel)
    : Completion :=
  let w := stop w in
  let w := with_dragEvents [] w in
  match nth_error (_items w) itemIndex,
        nth_error (getItemAngles (Fin 0) w) itemIndex with
  | Some _, Some angle =>
      let itemAngle :=
        if spinToCenter then centerOf angle
        else getRandomFloat random (angle_start angle) (angle_end angle) in
      let newRotation :=
        calcWheelRotationForTargetAngle (_rotation w)
          (nsub itemAngle (_pointerAngle w)) direction in
      let newRotation :=
        nadd newRotation (nmul (nmul numberOfRevolutions (Fin 360)) direction) in
      let w := animate newRotation duration easingFunction now w in
      Normal
        (raiseEvent_onSpin
           [("method", VStr "spintoitem");
            ("targetItemIndex", VNum (Fin (inject_Z (Z.of_nat itemIndex))));
            ("targetRotation", VNum newRotation);
            ("duration", VNum duration)] w)
  | _, _ => Thrown "TypeError: cannot read properties of undefined" w
  end.

End SpinTo.

(** *** A wheel to compute with *)

(** A wheel built with no props, after its first frame: every property
    at its default, no item, at rest, nothing raised.  The fields that
    [animate] has not set yet are undefined, a [NaN] when read as a number;
    the easing function is only read during a timed spin. *)
Definition defaultWheel : Wheel :=
  mkWheel defaultValue [] (Some (-1)%Z) false (Fin 0) (Fin 1) None NaN NaN NaN
    (fun n => n) None false [] [].

Definition itemOfWeight (w : num) : Item :=
  Item_set IWeight (VNum w) defaultItem.

(** The default wheel with one item per weight, at [rotation]. *)
Definition wheelOfWeights (weights : list num) (rotation : num) : Wheel :=
  let w := with_isInitialising true defaultWheel in
  let w := with_items (map itemOfWeight weights) w in
  let w := storeProp Rotation (VNum rotation) w in
  let w := refreshCurrentIndex (getItemAngles (_rotation w) w) w in
  with_isInitialising false w.

(** ** Double precision *)

(** The nearest integer, a tie going to the even one. *)
Definition Zrne (q : Q) : Z :=
  let f := Qfloor q in
  match Qcompare (q - inject_Z f) (1 # 2) with
  | Lt => f
  | Gt => (f + 1)%Z
  | Eq => if Z.even f then f else (f + 1)%Z
  end.

(** The exponent [e] with [2^e <= q < 2^(e+1)], for [q] above 0. *)
Definition ilog2 (q : Q) : Z :=
  let g := (Z.log2 (Qnum q) - Z.log2 (Zpos (Qden q)))%Z in
  if Qle_bool (2 ^ g) q then g else (g - 1)%Z.

(** The exponent of the unit in the last place of the binary64 numbers
    around [x]: 53 significant bits, and no exponent below -1074. *)
Definition ulpExponent (x : Q) : Z :=
  Z.max (ilog2 (Qabs x) - 52) (-1074).

(** The binary64 number nearest to [x], a tie going to the even
    significand; an infinity from [2^1024] on. *)
Definition round64 (x : Q) : num :=
  if Qis0 x then Fin 0
  else
    let e := ulpExponent x in
    let y := inject_Z (Zrne (x / 2 ^ e)) * 2 ^ e in
    if Qle_bool (2 ^ 1024) (Qabs y) then (if Qpos x then PInf else NInf)
    else fin y.

Definition rnd (a : num) : num :=
  match a with
  | Fin x => round64 x
  | other => other
  end.


(** The arithmetic of the binary64 numbers: the exact result, rounded.
    The remainder [%] of two binary64 numbers is one, and is not
    rounded. *)
Module Double.

Definition add (a b : num) : num := rnd (nadd a b).
Definition sub (a b : num) : num := rnd (nsub a b).
Definition mul (a b : num) : num := rnd (nmul a b).
Definition div (a b : num) : num := rnd (ndiv a b).

(** *** util.js *)

Definition addAngle (a b : num) : num :=
  let sum := add a b in
  let result :=
    if ngt sum (Fin 0) then nrem sum (Fin 360)
    else add (Fin 360) (nrem sum (Fin 360)) in
  if neq result (Fin 360) then Fin 0 else result.

Definition diffAngle (a b : num) : num :=
  let offsetFrom180 := sub (Fin 180) b in
  let aWithOffset := addAngle a offsetFrom180 in
  sub (Fin 180) aWithOffset.

(** [Number(f.toFixed(9))]: the decimal that [toFixed] prints, read
    back as the nearest binary64 number. *)
Definition fixFloat (f : num) : num := rnd (toFixedNumber 9 f).

Definition calcWheelRotationForTargetAngle
    (currentRotation targetAngle direction : num) : num :=
  let angle := nrem (add (nrem currentRotation (Fin 360)) targetAngle) (Fin 360) in
  let angle := fixFloat angle in
  let angle :=
    nrem (if neq direction (Fin 1) then sub (Fin 360) angle
          else add (Fin 360) angle) (Fin 360) in
  let angle := mul angle direction in
  add currentRotation angle.

Definition getRandomFloat (random min max : num) : num :=
  rnd (toFixedNumber 14 (add (mul random (sub max min)) min)).

(** *** Slice layout *)

Definition sumWeights (items : list Item) : num :=
  fold_left (fun weightSum i => add weightSum (weight i)) items (Fin 0).

Fixpoint pushAngles (weightedItemAngle lastItemAngle : num)
    (items : list Item) : list ItemAngle :=
  match items with
  | [] => []
  | item :: rest =>
      let itemAngle := mul (weight item) weightedItemAngle in
      mkAngle lastItemAngle (add lastItemAngle itemAngle)
        :: pushAngles weightedItemAngle (add lastItemAngle itemAngle) rest
  end.

Definition itemAngles (initialRotation : num) (items : list Item)
    : list ItemAngle :=
  let weightSum := sumWeights items in
  let weightedItemAngle := div (Fin 360) weightSum in
  let angles := pushAngles weightedItemAngle initialRotation items in
  if (1 <? List.length items)%nat then
    match angles with
    | [] => angles
    | first :: _ => setLastEnd (add (angle_start first) (Fin 360)) angles
    end
  else angles.

Definition getItemAngles (initialRotation : num) (w : Wheel) : list ItemAngle :=
  itemAngles initialRotation (_items w).

Definition centerOf (angle : ItemAngle) : num :=
  add (angle_start angle)
    (div (sub (angle_end angle) (angle_start angle)) (Fin 2)).

(** *** Spinning to an item *)

Section SpinTo.

Variable easeSinOut : num -> num.

Definition animate (newRotation duration : num)
    (easingFunction : option (num -> num)) (now : num) (w : Wheel) : Wheel :=
  let w := with_spinToStartRotation (_rotation w) w in
  let w := with_spinToEndRotation newRotation w in
  let w := with_spinToTimeStart now w in
  let w := with_spinToTimeEnd (Some (add (_spinToTimeStart w) duration)) w in
  with_spinToEasingFunction
    (match easingFunction with Some f => f | None => easeSinOut end) w.

Definition spinToItem (itemIndex : nat) (duration : num)
    (spinToCenter : bool) (numberOfRevolutions direction : num)
    (easingFunction : option (num -> num)) (random now : num) (w : Wheel)
    : Completion :=
  let w := stop w in
  let w := with_dragEvents [] w in
  match nth_error (_items w) itemIndex,
        nth_error (getItemAngles (Fin 0) w) itemIndex with
  | Some _, Some angle =>
      let itemAngle :=
        if spinToCenter then centerOf angle
        else getRandomFloat random (angle_start angle) (angle_end angle) in
      let newRotation :=
        calcWheelRotationForTargetAngle (_rotation w)
          (sub itemAngle (_pointerAngle w)) direction in
      let newRotation :=
        add newRotation (mul (mul numberOfRevolutions (Fin 360)) direction) in
      let w := animate newRotation duration easingFunction now w in
      Normal
        (raiseEvent_onSpin
           [("method", VStr "spintoitem");
            ("targetItemIndex", VNum (Fin (inject_Z (Z.of_nat itemIndex))));
            ("targetRotation", VNum newRotation);
            ("duration", VNum duration)] w)
  | _, _ => Thrown "TypeError: cannot read properties of undefined" w
  end.

End SpinTo.

End Double.

(** The binary64 number that a decimal literal denotes. *)
Definition literal (q : Q) : num := round64 q.

(** * The vocabulary of the properties *)


(** The rational carried by a finite number. *)
Definition valueOf (n : num) : Q :=
  match n with Fin q => q | _ => 0 end.


(** Each range starts where the one before it ends. *)
Definition contiguous (angles : list ItemAngle) : Prop :=
  forall i a b,
    nth_error angles i = Some a -> nth_error angles (S i) = Some b ->
    angle_start b = angle_end a.

(** How many times [onRest] was raised. *)
Definition restCount (events : list Event) : nat :=
  List.length (filter (fun e => match e with Rest _ _ => true | _ => false end) events).

(** Neither spin is running. *)
Definition idle (w : Wheel) : Prop :=
  _spinToTimeEnd w = None /\ _lastSpinFrameTime w = None.








(** Half a unit of the ninth decimal. *)
Definition half_ulp9 : Q := 1 # 2000000000.

(** The slice from 0 to 90 degrees. *)
Definition slice0_90 : ItemAngle := mkAngle (Fin 0) (Fin 90).

(** The value read back from a property of an item. *)
Definition Item_get (p : ItemProp) (it : Item) : value :=
  let ofString (o : option string) :=
    match o with Some s => VStr s | None => VNull end in
  match p with
  | IBackgroundColor => ofString (backgroundColor it)
  | IImage =>
      match image it with
      | Some src => VObject [("src", VStr src)]
      | None => VNull
      end
  | IImageOpacity => VNum (imageOpacity it)
  | IImageRadius => VNum (imageRadius it)
  | IImageRotation => VNum (imageRotation it)
  | IImageScale => VNum (imageScale it)
  | ILabel => VStr (label it)
  | ILabelColor => ofString (labelColor it)
  | IValue => itemValue it
  | IWeight => VNum (weight it)
  end.

(** The values a setter of [Item] stores as they are. *)
Definition itemAccepts (p : ItemProp) (val : value) : bool :=
  match p with
  | IBackgroundColor | IImage | ILabel | ILabelColor => isString val
  | IImageOpacity | IImageRadius | IImageRotation | IImageScale | IWeight =>
      String.eqb (typeof val) "number"
  | IValue => negb (isUndefined val)
  end.

(** The property holds the default of the wheel after an assignment. *)
Definition holdsDefault (p : WheelProp) (w : Wheel) : Prop :=
  match p with
  | Items => _items w = []
  | _ => _props w p = defaultValue p
  end.

(** ** Wheels and inputs to compute with *)

(** Four equal slices at rotation 0: the first slice is [0, 90). *)
Definition fourSlices : Wheel :=
  wheelOfWeights [Fin 1; Fin 1; Fin 1; Fin 1] (Fin 0).

(** The wheel a method leaves, whether it returns or throws. *)
Definition wheelAfter (c : Completion) : Wheel :=
  match c with Normal w => w | Thrown _ w => w end.

(** [fourSlices] after [spin(20)] at time 0. *)
Definition spunAt20 : Wheel :=
  wheelAfter (spin (VNum (Fin 20)) (Fin 0) fourSlices).

(** Four equal slices at rotation 10, after [spinTo(370, 1000)] at time 0
    with a linear easing. *)
Definition spinningTo370 : Wheel :=
  wheelAfter
    (spinTo (fun n => n) (VNum (Fin 370)) (VNum (Fin 1000))
       (Some (fun n => n)) (Fin 0)
       (wheelOfWeights [Fin 1; Fin 1; Fin 1; Fin 1] (Fin 10))).

(** [fourSlices] dragged from a start at time 60 through three moves of
    10 degrees each, 10 ms apart, where the angle of a point is taken to
    be its first coordinate. *)
Definition draggedThrice : Wheel :=
  let angle := fun x _ : num => x in
  let w := dragStart (Fin 0) (Fin 0) (Fin 60) fourSlices in
  let w := wheelAfter (dragMove angle (Fin 10) (Fin 0) (Fin 70) w) in
  let w := wheelAfter (dragMove angle (Fin 20) (Fin 0) (Fin 80) w) in
  wheelAfter (dragMove angle (Fin 30) (Fin 0) (Fin 90) w).


(** Four equal slices at rotation -100. *)
Definition fourSlicesTurned : Wheel :=
  wheelOfWeights [Fin 1; Fin 1; Fin 1; Fin 1] (Fin (-100)).

(** An array of one item of the given weight, as a caller writes it. *)
Definition oneItemOfWeight (weight : value) : value :=
  VArray [VObject [("label", VStr "prize"); ("weight", weight)]].


(** ** Binary64 numbers *)

(** The relative error of a rounding to binary64, [2^-53], and the
    absolute error of one below the normal numbers, [2^-1075]. *)
Definition u64 : Q := 1 # 9007199254740992.
Definition eta64 : Q := 2 ^ (-1075).


(** Four equal slices at a rotation. *)
Definition fourSlicesAt (rotation : num) : Wheel :=
  wheelOfWeights [Fin 1; Fin 1; Fin 1; Fin 1] rotation.


(** A binary64 number of the kernel, as a number of the model. *)
Definition ofFloat (f : PrimFloat.float) : num :=
  match FloatOps.Prim2SF f with
  | SpecFloat.S754_zero _ => Fin 0
  | SpecFloat.S754_infinity s => if s then NInf else PInf
  | SpecFloat.S754_nan => NaN
  | SpecFloat.S754_finite s m e =>
      fin ((if s then - inject_Z (Zpos m) else inject_Z (Zpos m)) * 2 ^ e)
  end.

Definition sameNum (a b : num) : bool :=
  match a, b with
  | NaN, NaN | PInf, PInf | NInf, NInf => true
  | Fin x, Fin y => Qeq_bool x y
  | _, _ => false
  end.

#[local] Set Warnings "-inexact-float".

(** Operands to compare the two arithmetics on: small integers, decimal
    fractions, neighbours of 1 and of [2^53], the largest and the smallest
    numbers, normal and not. *)
Definition samples : list PrimFloat.float :=
  [0; 1; 2; 3; 7; 10; 45; 90; 180; 360; 0.1; 0.2; 0.3; 0.5; 1.5; 2.5;
   51.42857142857143; 308.5714285714286; 59179.7330096965; 1e-9; 5e-10;
   9007199254740992; 9007199254740993; 4503599627370497; 1e21; 1e22;
   1.7976931348623157e308; 8.98846567431158e307; 2.2250738585072014e-308;
   5e-324; 1.5e-323; 1e-320; 0.9999999999999999; 1.0000000000000002;
   -1; -0.1; -100.1; -360; -725; -8287968.43; -1.7976931348623157e308;
   -5e-324]%float.

(** An operation of the model and one of the kernel agree on every pair
    of the operands. *)
Definition agreeOn (model : num -> num -> num)
    (prim : PrimFloat.float -> PrimFloat.float -> PrimFloat.float) : bool :=
  forallb
    (fun x =>
       forallb
         (fun y => sameNum (model (ofFloat x) (ofFloat y)) (ofFloat (prim x y)))
         samples)
    samples.

(** * Properties *)

(** ** Numbers *)

#[local] Arguments Qred : simpl never.
#[local] Arguments Qplus : simpl never.
#[local] Arguments Qminus : simpl never.
#[local] Arguments Qmult : simpl never.
#[local] Arguments Qdiv : simpl never.
#[local] Arguments Qopp : simpl never.
#[local] Arguments Qle_bool : simpl never.
#[local] Arguments Qeq_bool : simpl never.


Lemma fin_inj (x y : Q) : fin x = fin y -> x == y.
Proof. unfold fin. intros H. injection H as H. now apply Qred_eq_iff. Qed.

Lemma Qle_bool_false (x y : Q) : Qle_bool x y = false <-> y < x.
Proof.
  split; intros H.
  - apply Qnot_le_lt. intros C. apply Qle_bool_iff in C. congruence.
  - destruct (Qle_bool x y) eqn:E; [|reflexivity].
    apply Qle_bool_iff in E. exfalso. apply (Qlt_not_le _ _ H E).
Qed.

Lemma Qeq_bool_false (x y : Q) : Qeq_bool x y = false <-> ~ x == y.
Proof.
  split; intros H.
  - now apply Qeq_bool_neq.
  - destruct (Qeq_bool x y) eqn:E; [|reflexivity].
    apply Qeq_bool_iff in E. contradiction.
Qed.

Lemma nlt_Fin (x y : Q) : nlt (Fin x) (Fin y) = true <-> x < y.
Proof.
  simpl. rewrite negb_true_iff. apply Qle_bool_false.
Qed.

Lemma nlt_Fin_false (x y : Q) : nlt (Fin x) (Fin y) = false <-> y <= x.
Proof.
  simpl. rewrite negb_false_iff. apply Qle_bool_iff.
Qed.

Lemma nle_Fin (x y : Q) : nle (Fin x) (Fin y) = true <-> x <= y.
Proof. simpl. apply Qle_bool_iff. Qed.

Lemma nle_Fin_false (x y : Q) : nle (Fin x) (Fin y) = false <-> y < x.
Proof. simpl. apply Qle_bool_false. Qed.

Lemma neq_Fin (x y : Q) : neq (Fin x) (Fin y) = true <-> x == y.
Proof. simpl. apply Qeq_bool_iff. Qed.

Lemma neq_Fin_false (x y : Q) : neq (Fin x) (Fin y) = false <-> ~ x == y.
Proof. simpl. apply Qeq_bool_false. Qed.

(** Case analysis on a comparison of two finite numbers. *)
Ltac cmp_cases E :=
  match goal with
  | |- context [nlt (Fin ?x) (Fin ?y)] =>
      destruct (nlt (Fin x) (Fin y)) eqn:E;
      [apply nlt_Fin in E | apply nlt_Fin_false in E]
  | |- context [nle (Fin ?x) (Fin ?y)] =>
      destruct (nle (Fin x) (Fin y)) eqn:E;
      [apply nle_Fin in E | apply nle_Fin_false in E]
  | |- context [neq (Fin ?x) (Fin ?y)] =>
      destruct (neq (Fin x) (Fin y)) eqn:E;
      [apply neq_Fin in E | apply neq_Fin_false in E]
  end.

(** The integer part, below and above. *)
Lemma Qtrunc_nonneg (q : Q) :
  0 <= q -> inject_Z (Qtrunc q) <= q /\ q < inject_Z (Qtrunc q) + 1.
Proof.
  intros H. unfold Qtrunc.
  apply Qle_bool_iff in H. rewrite H. split.
  - apply Qfloor_le.
  - generalize (Qlt_floor q). rewrite inject_Z_plus. trivial.
Qed.

Lemma Qtrunc_neg (q : Q) :
  q < 0 -> inject_Z (Qtrunc q) - 1 < q /\ q <= inject_Z (Qtrunc q).
Proof.
  intros H. unfold Qtrunc.
  apply Qle_bool_false in H. rewrite H. split.
  - generalize (Qceiling_lt q). unfold Z.sub. rewrite inject_Z_plus. trivial.
  - apply Qle_ceiling.
Qed.

(** The remainder differs from the dividend by a multiple of the divisor. *)
Lemma Qrem_multiple (x y : Q) :
  x == Qrem x y + y * inject_Z (Qtrunc (x / y)).
Proof. unfold Qrem. ring. Qed.

Lemma Qrem_nonneg (x y : Q) :
  0 < y -> 0 <= x -> 0 <= Qrem x y /\ Qrem x y < y.
Proof.
  intros Hy Hx. unfold Qrem.
  assert (Hq : 0 <= x / y).
  { apply Qle_shift_div_l; [assumption|]. lra. }
  destruct (Qtrunc_nonneg _ Hq) as [H1 H2].
  set (k := inject_Z (Qtrunc (x / y))) in *.
  assert (Hx' : x == (x / y) * y) by (field; lra).
  split.
  - assert (k * y <= (x / y) * y) by (apply Qmult_le_compat_r; lra). lra.
  - assert ((x / y) * y < (k + 1) * y) by (apply Qmult_lt_compat_r; lra). lra.
Qed.

Lemma Qrem_nonpos (x y : Q) :
  0 < y -> x <= 0 -> - y < Qrem x y /\ Qrem x y <= 0.
Proof.
  intros Hy Hx.
  destruct (Qeq_dec x 0) as [E|E].
  - assert (Hx0 : 0 <= x) by lra.
    destruct (Qrem_nonneg x y Hy Hx0) as [H1 H2].
    assert (Hq : x / y == 0) by (rewrite E; field; lra).
    assert (Hq0 : 0 <= x / y) by lra.
    destruct (Qtrunc_nonneg _ Hq0) as [H3 H4].
    assert (Ht : Qtrunc (x / y) = 0%Z).
    { assert (Qtrunc (x / y) <= 0)%Z.
      { rewrite Zle_Qle. change (inject_Z 0) with 0. lra. }
      assert (-1 < Qtrunc (x / y))%Z.
      { rewrite Zlt_Qlt. change (inject_Z (-1)) with (-1). lra. }
      lia. }
    unfold Qrem in *. rewrite Ht in *. change (inject_Z 0) with 0 in *. lra.
  - assert (Hneg : x < 0) by lra.
    assert (Hq : x / y < 0).
    { apply Qlt_shift_div_r; [assumption|]. lra. }
    destruct (Qtrunc_neg _ Hq) as [H1 H2].
    unfold Qrem.
    set (k := inject_Z (Qtrunc (x / y))) in *.
    assert (Hx' : x == (x / y) * y) by (field; lra).
    split.
    + assert ((k - 1) * y < (x / y) * y) by (apply Qmult_lt_compat_r; lra). lra.
    + assert ((x / y) * y <= k * y) by (apply Qmult_le_compat_r; lra). lra.
Qed.

Lemma nadd_Fin (x y : Q) : nadd (Fin x) (Fin y) = fin (x + y).
Proof. reflexivity. Qed.

Lemma nsub_Fin (x y : Q) : nsub (Fin x) (Fin y) = fin (x - y).
Proof. reflexivity. Qed.

Lemma nmul_Fin (x y : Q) : nmul (Fin x) (Fin y) = fin (x * y).
Proof. reflexivity. Qed.

Lemma nrem_360 (x : Q) : nrem (Fin x) (Fin 360) = fin (Qrem x 360).
Proof. reflexivity. Qed.


(** ** Angle arithmetic *)

(** ** Slice layout *)






Lemma pushAngles_head (u l : num) (items : list Item) (a : ItemAngle) :
  nth_error (pushAngles u l items) 0 = Some a -> angle_start a = l.
Proof.
  destruct items as [|it items]; simpl; [discriminate|].
  intros H. injection H as <-. reflexivity.
Qed.

Lemma pushAngles_contiguous (u l : num) (items : list Item) :
  contiguous (pushAngles u l items).
Proof.
  revert l. induction items as [|it items IH]; intros l i a b Ha Hb.
  - destruct i; discriminate.
  - destruct i as [|i].
    + simpl in Ha. injection Ha as <-. simpl in Hb.
      apply pushAngles_head in Hb. exact Hb.
    + simpl in Ha, Hb. exact (IH _ i a b Ha Hb).
Qed.

Lemma setLastEnd_length (e : num) (angles : list ItemAngle) :
  List.length (setLastEnd e angles) = List.length angles.
Proof.
  induction angles as [|a [|b rest] IH]; simpl in *; [reflexivity..|].
  now rewrite IH.
Qed.




(** ** Motion *)

(** [refreshCurrentIndex] touches the current index and the log only, and
    raises at most one notification, carrying the new index. *)
Lemma refreshCurrentIndex_effect (angles : list ItemAngle) (w : Wheel) :
  exists c extra,
    refreshCurrentIndex angles w =
      with_log (log w ++ extra) (with_currentIndex c w) /\
    (extra = [] \/ extra = [CurrentIndexChange c]).
Proof.
  destruct w as [props items cur init speed dir tEnd tStart rStart rEnd ease
                   last dragging events lg].
  unfold refreshCurrentIndex, _pointerAngle, raiseEvent_onCurrentIndexChange,
    with_currentIndex, with_log.
  cbn [_items _props _currentIndex _isInitialising log].
  destruct (List.length items =? 0)%nat;
    cbn [_items _props _currentIndex _isInitialising log];
    destruct (findPointed _ _ _) as [i|];
    try destruct (sameIndex _ i);
    try destruct init;
    cbn [negb _items _props _currentIndex _isInitialising log
         _rotationSpeed _rotationDirection _spinToTimeEnd _spinToTimeStart
         _spinToStartRotation _spinToEndRotation _spinToEasingFunction
         _lastSpinFrameTime isDragging dragEvents];
    first
      [ eexists; exists []; split;
        [rewrite app_nil_r; reflexivity | left; reflexivity]
      | eexists; eexists [_]; split; [reflexivity | right; reflexivity] ].
Qed.

(** Assigning a number to [rotation] stores it and refreshes the index. *)
Lemma set_rotation_number (x : num) (w : Wheel) :
  isNumber (VNum x) = true ->
  exists c extra,
    Wheel_set Rotation (VNum x) w =
      Normal (with_log (log w ++ extra)
                (with_currentIndex c (storeProp Rotation (VNum x) w))) /\
    (extra = [] \/ extra = [CurrentIndexChange c]).
Proof.
  intros H. unfold Wheel_set, setProp. cbn [isValid]. rewrite H.
  cbn [action afterSet].
  destruct (refreshCurrentIndex_effect
              (getItemAngles (_rotation (storeProp Rotation (VNum x) w))
                 (storeProp Rotation (VNum x) w))
              (storeProp Rotation (VNum x) w)) as (c & extra & E & Hextra).
  exists c, extra. rewrite E. split; [reflexivity | exact Hextra].
Qed.

(** ** Motion: the timed spin *)

(** C3.  While a timed spin is the running one, a tick at a time [now]
    that is not before the end time stores the end rotation itself as the
    rotation, leaves the wheel idle, and raises [onRest] last, once, with
    the index and the rotation the wheel ends with. *)
Theorem animateRotation_spinTo_end (w : Wheel) (now spinToTimeEnd : num) :
  _spinToTimeEnd w = Some spinToTimeEnd ->
  _lastSpinFrameTime w = None ->
  isNumber (VNum (_spinToEndRotation w)) = true ->
  nge now spinToTimeEnd = true ->
  exists w' changes,
    animateRotation now w = Normal w' /\
    _props w' Rotation = VNum (_spinToEndRotation w) /\
    idle w' /\
    log w' = log w ++ changes ++ [Rest (_currentIndex w') (_props w' Rotation)] /\
    restCount changes = 0%nat.
Proof.
  intros Hend Hlast Hnum Hnow.
  unfold animateRotation. rewrite Hend, Hnow.
  destruct (set_rotation_number _ w Hnum) as (c & extra & E & Hextra).
  rewrite E.
  eexists _, extra. split; [reflexivity|].
  destruct w as [props items cur init speed dir tEnd tStart rStart rEnd ease
                   last dragging events lg].
  cbn in Hlast |- *. subst last.
  split.
  { destruct (WheelProp_beq Rotation Rotation) eqn:B; [reflexivity|discriminate]. }
  split; [split; reflexivity|].
  split; [now rewrite <- app_assoc|].
  destruct Hextra as [-> | ->]; reflexivity.
Qed.

Lemma animateRotation_spinTo_end_witness :
  _spinToTimeEnd spinningTo370 = Some (Fin 1000) /\
  _lastSpinFrameTime spinningTo370 = None /\
  isNumber (VNum (_spinToEndRotation spinningTo370)) = true /\
  nge (Fin 1000) (Fin 1000) = true /\
  exists w' changes,
    animateRotation (Fin 1000) spinningTo370 = Normal w' /\
    _props w' Rotation = VNum (Fin 370) /\
    idle w' /\
    log w' = log spinningTo370 ++ changes
             ++ [Rest (_currentIndex w') (_props w' Rotation)] /\
    restCount changes = 0%nat.
Proof.
  repeat (split; [reflexivity|]).
  exact (animateRotation_spinTo_end spinningTo370 (Fin 1000) (Fin 1000)
           eq_refl eq_refl eq_refl eq_refl).
Defined.

(** ** Motion: the velocity spin *)

(** C8.  While a velocity spin is the running one, a tick whose elapsed
    time since the last tick is zero or negative returns the wheel as it
    is: the rotation, the rotation speed and the recorded time of the last
    tick are unchanged, like every other field. *)
Theorem animateRotation_no_elapsed_time (w : Wheel) (now lastSpinFrameTime : num) :
  _spinToTimeEnd w = None ->
  _lastSpinFrameTime w = Some lastSpinFrameTime ->
  nle (nsub now lastSpinFrameTime) (Fin 0) = true ->
  animateRotation now w = Normal w.
Proof.
  intros Hend Hlast Hdelta.
  unfold animateRotation. rewrite Hend, Hlast.
  assert (Hgt : ngt (nsub now lastSpinFrameTime) (Fin 0) = false).
  { unfold ngt. destruct (nsub now lastSpinFrameTime) as [| | |d];
      try reflexivity; try discriminate.
    apply nle_Fin in Hdelta. apply nlt_Fin_false. exact Hdelta. }
  now rewrite Hgt.
Qed.

Lemma animateRotation_no_elapsed_time_witness :
  _spinToTimeEnd spunAt20 = None /\
  _lastSpinFrameTime spunAt20 = Some (Fin 0) /\
  nle (nsub (Fin 0) (Fin 0)) (Fin 0) = true /\
  animateRotation (Fin 0) spunAt20 = Normal spunAt20.
Proof.
  repeat (split; [reflexivity|]).
  exact (animateRotation_no_elapsed_time spunAt20 (Fin 0) (Fin 0)
           eq_refl eq_refl eq_refl).
Defined.


Lemma storeProp_same (p : WheelProp) (v : value) (w : Wheel) :
  _props (storeProp p v w) p = v.
Proof.
  unfold storeProp. cbn [_props with_props].
  destruct (WheelProp_eq_dec p p) as [E|E]; [|contradiction].
  destruct (WheelProp_beq p p) eqn:B; [reflexivity|].
  rewrite (internal_WheelProp_dec_lb _ _ E) in B. discriminate.
Qed.












(** ** Dragging *)



(** A move is recorded first in the history, newest first, with the
    angle moved since the event before it. *)
Lemma dragMove_records (getAngleFromCenter : num -> num -> num)
    (p_x p_y now : num) (w w' : Wheel) (lastDragPoint : DragEvent)
    (rest : list DragEvent) :
  dragEvents w = lastDragPoint :: rest ->
  isTrue (_props w Debug) = false ->
  dragMove getAngleFromCenter p_x p_y now w = Normal w' ->
  dragEvents w' =
    mkDragEvent
      (diffAngle
         (getAngleFromCenter (drag_x lastDragPoint) (drag_y lastDragPoint))
         (getAngleFromCenter p_x p_y))
      p_x p_y now :: lastDragPoint :: rest.
Proof.
  intros Hev Hdebug H. unfold dragMove in H.
  cbn [_props with_dragEvents] in H. rewrite Hdebug, Hev in H.
  cbn [andb] in H.
  unfold Wheel_set, setProp in H.
  destruct (isValid Rotation _); cbn [action isUndefined] in H; [|discriminate].
  cbn [afterSet] in H.
  match type of H with
  | context [refreshCurrentIndex ?a ?x] =>
      destruct (refreshCurrentIndex_effect a x) as (c & extra & E & _);
      rewrite E in H
  end.
  injection H as <-. reflexivity.
Qed.




(** Three moves of 10 degrees within the capture period, recorded by
    [dragStart] and [dragMove], are released at 120 degrees per second,
    clockwise. *)
Example drag_three_moves :
  map distance (dragEvents draggedThrice) = [Fin 10; Fin 10; Fin 10; Fin 0] /\
  _rotation draggedThrice = Fin 30 /\
  _rotationSpeed (dragEnd (Fin 100) (Fin 101) draggedThrice) = Fin 120 /\
  _rotationDirection (dragEnd (Fin 100) (Fin 101) draggedThrice) = Fin 1.
Proof. repeat split. Qed.


(** ** Spinning to an item *)

(** Fixing a number to 9 decimals moves it by half a unit of the ninth
    decimal at most. *)
Lemma Qtofixed9_close (x : Q) : Qabs (Qtofixed 9 x - x) <= half_ulp9.
Proof.
  unfold Qtofixed, half_ulp9.
  destruct (Qle_bool (inject_Z (10 ^ 21)) (Qabs x)).
  { apply Qabs_Qle_condition. split; lra. }
  change (inject_Z (Z.pow_pos 10 9)) with (1000000000 # 1).
  set (n := Qfloor (Qabs x * (1000000000 # 1) + (1 # 2))).
  pose proof (Qfloor_le (Qabs x * (1000000000 # 1) + (1 # 2))) as H1.
  pose proof (Qlt_floor (Qabs x * (1000000000 # 1) + (1 # 2))) as H2.
  fold n in H1, H2. rewrite inject_Z_plus in H2.
  change (inject_Z 1) with 1 in H2.
  set (y := inject_Z n / (1000000000 # 1)).
  assert (Hy : y * (1000000000 # 1) == inject_Z n) by (unfold y; field).
  apply Qabs_Qle_condition.
  destruct (Qle_bool 0 x) eqn:Hx.
  - apply Qle_bool_iff in Hx. rewrite (Qabs_pos x Hx) in H1, H2.
    fold y. split; lra.
  - apply Qle_bool_false in Hx.
    rewrite (Qabs_neg x) in H1, H2 by lra.
    assert (E : - inject_Z n / (1000000000 # 1) == - y) by (unfold y; field).
    rewrite E. split; lra.
Qed.

(** ** Validation of the properties *)

Lemma refreshCurrentIndex_props (angles : list ItemAngle) (w : Wheel) :
  _props (refreshCurrentIndex angles w) = _props w /\
  _items (refreshCurrentIndex angles w) = _items w.
Proof.
  destruct (refreshCurrentIndex_effect angles w) as (c & extra & E & _).
  rewrite E. split; reflexivity.
Qed.

Lemma afterSet_props (p : WheelProp) (w : Wheel) :
  _props (afterSet p w) = _props w /\ _items (afterSet p w) = _items w.
Proof.
  destruct p; cbn [afterSet]; try (split; reflexivity);
    apply refreshCurrentIndex_props.
Qed.

Lemma isValid_undefined (p : WheelProp) : isValid p VUndefined = false.
Proof. destruct p; reflexivity. Qed.

(** A setter of the wheel throws on a defined value that is not valid. *)
Lemma Wheel_set_invalid (p : WheelProp) (val : value) (w : Wheel) :
  isUndefined val = false -> isValid p val = false ->
  Wheel_set p val w = Thrown (errorMessage p) w.
Proof.
  intros Hdef Hinv. unfold Wheel_set, setProp.
  destruct p; rewrite Hinv, Hdef; reflexivity.
Qed.

(** A setter of the wheel stores the default on [undefined]. *)
Lemma Wheel_set_undefined (p : WheelProp) (w : Wheel) :
  exists w', Wheel_set p VUndefined w = Normal w' /\ holdsDefault p w'.
Proof.
  unfold Wheel_set, setProp. rewrite !isValid_undefined. cbn [isUndefined].
  destruct p; eexists; (split; [reflexivity|]); unfold holdsDefault;
    try (rewrite (proj1 (afterSet_props _ _)); apply storeProp_same);
    try (rewrite (proj2 (afterSet_props _ _)); reflexivity).
Qed.

(** A setter of the wheel that returns on a defined value found it valid
    and stored what its action made of it, not the default. *)
Lemma Wheel_set_defined (p : WheelProp) (val : value) (w w' : Wheel) :
  Wheel_set p val w = Normal w' -> isUndefined val = false ->
  isValid p val = true /\
  match p with
  | Items => Ok (_items w') = itemsAction val tt
  | _ => Ok (_props w' p) = action p val tt
  end.
Proof.
  intros H Hdef. unfold Wheel_set, setProp in H. rewrite Hdef in H.
  destruct (isValid p val) eqn:Hv.
  2:{ destruct p; rewrite ?Hv in H; discriminate. }
  split; [reflexivity|].
  destruct p; rewrite ?Hv in H;
    try (destruct (action _ val tt) as [v|m] eqn:Ha; [|discriminate];
         injection H as <-;
         rewrite ?(proj1 (afterSet_props _ _)),
           ?(proj1 (refreshCurrentIndex_props _ _));
         change (_props (with_dragEvents [] ?x)) with (_props x);
         rewrite storeProp_same; reflexivity).
  destruct (itemsAction val tt) as [v|m] eqn:Ha; [|discriminate].
  injection H as <-.
  rewrite ?(proj2 (afterSet_props _ _)), ?(proj2 (refreshCurrentIndex_props _ _)).
  reflexivity.
Qed.

(** A setter of an item stores the default on any value it does not
    accept, and touches no other property. *)
Lemma Item_set_default (p : ItemProp) (val : value) (it : Item) :
  itemAccepts p val = false ->
  Item_get p (Item_set p val it) = Item_get p defaultItem.
Proof.
  intros H. destruct it, p, val; try discriminate; reflexivity.
Qed.

Lemma Item_set_accepted (p : ItemProp) (val : value) (it : Item) :
  itemAccepts p val = true ->
  Item_get p (Item_set p val it) =
  match p with
  | IImage => VObject [("src", val)]
  | _ => val
  end.
Proof.
  intros H. destruct it, p, val; try discriminate; reflexivity.
Qed.

Lemma Item_set_others (p q : ItemProp) (val : value) (it : Item) :
  p <> q -> Item_get q (Item_set p val it) = Item_get q it.
Proof.
  intros H. destruct it, p, q; try contradiction; reflexivity.
Qed.

(** C9, as the code has it.  Every setter of the wheel throws its message
    on a defined value that is not valid for the property, and leaves the
    wheel as it was; on [undefined] it stores the default; on any other
    value it returns only when the value is valid, and stores what its
    action makes of the value.  The setters of an item never throw: a
    value that is not of the expected type, defined or not, stores the
    default of the property; a value of the expected type is stored. *)
Theorem setters_validation :
  (forall p val w,
      isUndefined val = false -> isValid p val = false ->
      Wheel_set p val w = Thrown (errorMessage p) w) /\
  (forall p w,
      exists w', Wheel_set p VUndefined w = Normal w' /\ holdsDefault p w') /\
  (forall p val w w',
      Wheel_set p val w = Normal w' -> isUndefined val = false ->
      isValid p val = true /\
      match p with
      | Items => Ok (_items w') = itemsAction val tt
      | _ => Ok (_props w' p) = action p val tt
      end) /\
  (forall p val it,
      itemAccepts p val = false ->
      Item_get p (Item_set p val it) = Item_get p defaultItem) /\
  (forall p val it,
      itemAccepts p val = true ->
      Item_get p (Item_set p val it) =
      match p with IImage => VObject [("src", val)] | _ => val end).
Proof.
  split; [exact Wheel_set_invalid|].
  split; [exact Wheel_set_undefined|].
  split; [exact Wheel_set_defined|].
  split; [exact Item_set_default | exact Item_set_accepted].
Qed.

Lemma setters_validation_witness :
  isUndefined (VNum (Fin 3)) = false /\
  isValid BorderColor (VNum (Fin 3)) = false /\
  Wheel_set BorderColor (VNum (Fin 3)) defaultWheel =
    Thrown "Wheel.borderColor must be a string" defaultWheel.
Proof.
  repeat (split; [reflexivity|]).
  exact (proj1 setters_validation BorderColor (VNum (Fin 3)) defaultWheel
           eq_refl eq_refl).
Defined.

(** A string given as the weight of an item is not refused: the weight
    becomes the default, 1, whether the item is assigned to directly or
    made by the [items] setter of the wheel. *)
Lemma item_weight_not_validated :
  typeof (VStr "heavy") <> "number" /\
  weight (itemOfWeight (Fin 3)) = Fin 3 /\
  weight (Item_set IWeight (VStr "heavy") (itemOfWeight (Fin 3))) = Fin 1 /\
  exists w',
    Wheel_set Items (oneItemOfWeight (VStr "heavy")) defaultWheel = Normal w' /\
    map weight (_items w') = [Fin 1].
Proof.
  split; [discriminate|]. split; [reflexivity|]. split; [reflexivity|].
  eexists. split; reflexivity.
Qed.

Lemma nlt_not_nge (a b : num) : nlt a b = true -> nge a b = false.
Proof.
  unfold nge. destruct a as [| | |x], b as [| | |y];
    try discriminate; try reflexivity.
  intros H. apply nlt_Fin in H. apply nle_Fin_false. exact H.
Qed.

Lemma isNumber_not_nge (val : value) :
  isNumber val = true -> nge (numOf val) (Fin 0) = false ->
  nlt (numOf val) (Fin 0) = true.
Proof.
  destruct val as [| | |n| | | |]; try discriminate.
  destruct n as [| | |x]; try discriminate; try reflexivity.
  cbn [numOf]. unfold nge. intros _ H.
  apply nle_Fin_false in H. apply nlt_Fin. exact H.
Qed.

(** C10, as the code has it.  The setter of [pointerAngle] throws exactly
    on a defined value that is not a number ([NaN] is not one) or is a
    negative number; on [undefined] it stores the default, 0; a finite
    number that is not negative is stored modulo 360, in [[0, 360)]. *)
Theorem pointerAngle_setter (val : value) (w : Wheel) :
  (isUndefined val = false ->
   isNumber val = false \/ nlt (numOf val) (Fin 0) = true ->
   Wheel_set PointerAngle val w = Thrown (errorMessage PointerAngle) w) /\
  (forall m w',
      Wheel_set PointerAngle val w = Thrown m w' ->
      isUndefined val = false /\
      (isNumber val = false \/ nlt (numOf val) (Fin 0) = true)) /\
  (val = VUndefined ->
   exists w', Wheel_set PointerAngle val w = Normal w' /\
              _pointerAngle w' = Fin 0) /\
  (forall x : Q,
      val = VNum (Fin x) -> 0 <= x ->
      exists w' r,
        Wheel_set PointerAngle val w = Normal w' /\
        _pointerAngle w' = Fin r /\
        (0 <= r /\ r < 360) /\
        exists k : Z, x == r + 360 * inject_Z k).
Proof.
  split.
  { intros Hdef Hbad. apply Wheel_set_invalid; [exact Hdef|].
    cbn [isValid]. destruct Hbad as [H | H].
    - now rewrite H.
    - rewrite (nlt_not_nge _ _ H). apply andb_false_r. }
  split.
  { intros m w' H. unfold Wheel_set, setProp in H. cbn [isValid] in H.
    destruct (isNumber val) eqn:Hn; cbn [andb] in H.
    - destruct (nge (numOf val) (Fin 0)) eqn:Hge; [discriminate|].
      destruct (isUndefined val) eqn:Hu; [discriminate|].
      split; [reflexivity|]. right. now apply isNumber_not_nge.
    - destruct (isUndefined val) eqn:Hu; [discriminate|].
      split; [reflexivity|]. now left. }
  split.
  { intros ->. eexists. split; [reflexivity|].
    unfold _pointerAngle. cbn [afterSet]. now rewrite storeProp_same. }
  intros x -> Hx.
  assert (Hv : isValid PointerAngle (VNum (Fin x)) = true).
  { cbn [isValid numOf]. unfold nge.
    apply andb_true_intro. split; [reflexivity|]. now apply nle_Fin. }
  unfold Wheel_set, setProp. rewrite Hv.
  cbn [action numOf afterSet]. rewrite nrem_360.
  eexists _, (Qred (Qrem x 360)). split; [reflexivity|].
  split. { unfold _pointerAngle. now rewrite storeProp_same. }
  destruct (Qrem_nonneg x 360 ltac:(lra) Hx) as [H1 H2].
  split; [rewrite Qred_correct; split; assumption|].
  exists (Qtrunc (x / 360)). rewrite Qred_correct.
  apply Qrem_multiple.
Qed.

Lemma pointerAngle_setter_witness :
  0 <= 370 /\
  exists w' r,
    Wheel_set PointerAngle (VNum (Fin 370)) defaultWheel = Normal w' /\
    _pointerAngle w' = Fin r /\
    (0 <= r /\ r < 360) /\
    exists k : Z, 370 == r + 360 * inject_Z k.
Proof.
  assert (H : 0 <= 370) by (apply Qle_bool_iff; reflexivity).
  split; [exact H|].
  exact (proj2 (proj2 (proj2
           (pointerAngle_setter (VNum (Fin 370)) defaultWheel)))
           370 eq_refl H).
Defined.

(** [undefined] is not a number, and the setter does not throw on it. *)
Lemma pointerAngle_undefined_not_thrown :
  isNumber VUndefined = false /\
  exists w',
    Wheel_set PointerAngle VUndefined defaultWheel = Normal w' /\
    _pointerAngle w' = Fin 0.
Proof. split; [reflexivity|]. eexists. split; reflexivity. Qed.

(** [Infinity] is a number that is not negative; its remainder by 360,
    which the setter stores, is [NaN]. *)
Example pointerAngle_infinity :
  isNumber (VNum PInf) = true /\
  exists w',
    Wheel_set PointerAngle (VNum PInf) defaultWheel = Normal w' /\
    _pointerAngle w' = NaN.
Proof. split; [reflexivity|]. eexists. split; reflexivity. Qed.




(** ** The sessions of the timed spin *)

Section SpinToSession.

Variable easeSinOut : num -> num.

(** [spinTo] with numbers starts a timed spin and leaves no velocity
    spin running. *)
Lemma spinTo_session (rotation duration : num)
    (easingFunction : option (num -> num)) (now : num) (w : Wheel) :
  isNumber (VNum rotation) = true -> isNumber (VNum duration) = true ->
  exists w',
    spinTo easeSinOut (VNum rotation) (VNum duration) easingFunction now w
      = Normal w' /\
    _spinToTimeEnd w' = Some (nadd now duration) /\
    _lastSpinFrameTime w' = None /\
    _spinToEndRotation w' = rotation.
Proof.
  intros Hr Hd. unfold spinTo. cbn [orDefault isUndefined].
  rewrite Hr, Hd. cbn [negb numOf].
  eexists. split; [reflexivity|]. repeat split.
Qed.

End SpinToSession.

(** A tick never leaves both spins running when at most one was. *)
Lemma animateRotation_exclusive (now : num) (w : Wheel) :
  _spinToTimeEnd w = None \/ _lastSpinFrameTime w = None ->
  forall w',
    animateRotation now w = Normal w' ->
    _spinToTimeEnd w' = None \/ _lastSpinFrameTime w' = None.
Proof.
  intros Hex w' H. unfold animateRotation in H.
  destruct (_spinToTimeEnd w) as [tEnd|] eqn:Hend.
  - destruct Hex as [Hex | Hex]; [discriminate|].
    destruct (nge now tEnd).
    + unfold Wheel_set, setProp in H.
      destruct (isValid Rotation _); cbn [action isUndefined] in H; [|discriminate].
      injection H as <-. left. reflexivity.
    + unfold Wheel_set, setProp in H.
      destruct (isValid Rotation _); cbn [action isUndefined] in H; [|discriminate].
      injection H as <-. right.
      cbn [afterSet].
      match goal with
      | |- context [refreshCurrentIndex ?a ?x] =>
          destruct (refreshCurrentIndex_effect a x) as (c & extra & E & _)
      end.
      rewrite E. exact Hex.
  - left.
    destruct (_lastSpinFrameTime w) as [tLast|]; [|injection H as <-; exact Hend].
    destruct (ngt _ _); [|injection H as <-; exact Hend].
    unfold Wheel_set, setProp in H.
    destruct (isValid Rotation _); cbn [action isUndefined] in H; [|discriminate].
    cbn [afterSet] in H.
    match type of H with
    | context [refreshCurrentIndex ?a ?x] =>
        destruct (refreshCurrentIndex_effect a x) as (c & extra & E & _);
        rewrite E in H
    end.
    destruct (neq _ _); injection H as <-; exact Hend.
Qed.

(** * Properties of the binary64 arithmetic *)

Lemma Zrne_close (q : Q) : Qabs (inject_Z (Zrne q) - q) <= 1 # 2.
Proof.
  unfold Zrne.
  pose proof (Qfloor_le q) as L. pose proof (Qlt_floor q) as U.
  rewrite inject_Z_plus in U. change (inject_Z 1) with 1 in U.
  apply Qabs_Qle_condition.
  destruct (Qcompare_spec (q - inject_Z (Qfloor q)) (1 # 2)) as [E | E | E].
  - destruct (Z.even (Qfloor q)).
    + split; lra.
    + rewrite inject_Z_plus. change (inject_Z 1) with 1. split; lra.
  - split; lra.
  - rewrite inject_Z_plus. change (inject_Z 1) with 1. split; lra.
Qed.

Lemma Qpow2_pos (e : Z) : 0 < 2 ^ e.
Proof. apply Qpower_0_lt. reflexivity. Qed.

Lemma ilog2_le (q : Q) : 0 < q -> 2 ^ ilog2 q <= q.
Proof.
  intros Hq. unfold ilog2.
  set (g := (Z.log2 (Qnum q) - Z.log2 (Z.pos (Qden q)))%Z).
  destruct (Qle_bool (2 ^ g) q) eqn:C; [apply Qle_bool_iff; exact C|].
  destruct q as [n d]. cbn [Qnum Qden] in *.
  assert (Hn : (0 < n)%Z).
  { unfold Qlt in Hq. cbn in Hq. lia. }
  pose proof (Z.log2_spec n Hn) as [Ln _].
  pose proof (Z.log2_spec (Z.pos d) (Pos2Z.is_pos d)) as [_ Ud].
  pose proof (Z.log2_nonneg n) as An.
  pose proof (Z.log2_nonneg (Z.pos d)) as Ad.
  set (a := Z.log2 n) in *. set (b := Z.log2 (Z.pos d)) in *.
  replace (g - 1)%Z with (a - Z.succ b)%Z by (unfold g; lia).
  rewrite Qpower_minus by (intro H; discriminate).
  rewrite <- (Zpower_Qpower 2 a An), <- (Zpower_Qpower 2 (Z.succ b)) by lia.
  rewrite (Qmake_Qdiv n d).
  assert (P1 : 0 < inject_Z (2 ^ Z.succ b)).
  { change 0 with (inject_Z 0). rewrite <- Zlt_Qlt. apply Z.pow_pos_nonneg; lia. }
  assert (P2 : 0 < inject_Z (Z.pos d)).
  { change 0 with (inject_Z 0). rewrite <- Zlt_Qlt. lia. }
  apply Qle_shift_div_l; [exact P2|].
  assert (E : inject_Z (2 ^ a) / inject_Z (2 ^ Z.succ b) * inject_Z (Z.pos d)
              == inject_Z (2 ^ a) * inject_Z (Z.pos d) / inject_Z (2 ^ Z.succ b))
    by (field; lra).
  rewrite E. apply Qle_shift_div_r; [exact P1|].
  rewrite <- !inject_Z_mult, <- Zle_Qle.
  apply Z.mul_le_mono_nonneg; lia.
Qed.

Lemma Qabs_not0_pos (x : Q) : ~ x == 0 -> 0 < Qabs x.
Proof.
  intros H. apply Qabs_case; intros L.
  - destruct (Qlt_le_dec 0 x) as [P | P]; [exact P|].
    exfalso. apply H. lra.
  - destruct (Qlt_le_dec x 0) as [P | P]; [lra|].
    exfalso. apply H. lra.
Qed.

(** The rounded value before the range is checked. *)
Lemma round64_value (x : Q) :
  ~ x == 0 ->
  Qabs (inject_Z (Zrne (x / 2 ^ ulpExponent x)) * 2 ^ ulpExponent x - x)
  <= u64 * Qabs x + eta64.
Proof.
  intros Z0.
  assert (Heta : 0 < eta64) by apply Qpow2_pos.
  set (e := ulpExponent x).
  set (m := Zrne (x / 2 ^ e)).
  pose proof (Qpow2_pos e) as He.
  assert (Habs : 0 < Qabs x) by (apply Qabs_not0_pos; exact Z0).
  assert (Hclose : Qabs (inject_Z m * 2 ^ e - x) <= (1 # 2) * 2 ^ e).
  { pose proof (Zrne_close (x / 2 ^ e)) as C. fold m in C.
    assert (E : inject_Z m * 2 ^ e - x == (inject_Z m - x / 2 ^ e) * 2 ^ e)
      by (field; lra).
    rewrite E, Qabs_Qmult, (Qabs_pos (2 ^ e)) by lra.
    apply Qmult_le_compat_r; lra. }
  assert (Hulp : (1 # 2) * 2 ^ e <= u64 * Qabs x + eta64).
  { unfold e, ulpExponent.
    destruct (Z.max_spec (ilog2 (Qabs x) - 52) (-1074)) as [[_ ->] | [_ ->]].
    - assert (E : 2 ^ (-1074) == 2 * eta64) by (vm_compute; reflexivity).
      rewrite E.
      assert (0 <= u64 * Qabs x)
        by (apply Qmult_le_0_compat; [discriminate | lra]).
      lra.
    - rewrite Qpower_minus by (intro H; discriminate).
      pose proof (ilog2_le (Qabs x) Habs) as L.
      change (2 ^ 52) with 4503599627370496.
      assert (E : (1 # 2) * (2 ^ ilog2 (Qabs x) / 4503599627370496)
                  == u64 * 2 ^ ilog2 (Qabs x)) by (unfold u64; field).
      rewrite E.
      assert (u64 * 2 ^ ilog2 (Qabs x) <= u64 * Qabs x).
      { apply Qmult_le_l; [reflexivity | exact L]. }
      lra. }
  lra.
Qed.

(** A rounding to binary64 that is finite is within [2^-53] of the
    number, relatively, or within [2^-1075] of it. *)
Lemma round64_close (x y : Q) :
  round64 x = Fin y -> Qabs (y - x) <= u64 * Qabs x + eta64.
Proof.
  unfold round64, Qis0.
  destruct (Qeq_bool x 0) eqn:Z0.
  { intros H. injection H as <-. apply Qeq_bool_iff in Z0.
    assert (Heta : 0 < eta64) by apply Qpow2_pos.
    assert (Hu : 0 <= u64 * Qabs x).
    { apply Qmult_le_0_compat; [discriminate | apply Qabs_nonneg]. }
    assert (E : 0 - x == 0) by lra. rewrite E. cbn [Qabs Z.abs Qnum]. lra. }
  apply Qeq_bool_false in Z0.
  pose proof (round64_value x Z0) as V.
  destruct (Qle_bool (2 ^ 1024) _); [destruct (Qpos x); discriminate|].
  intros H. injection H as <-.
  rewrite Qred_correct. exact V.
Qed.

Lemma eta64_small : eta64 <= 1 # 1000000000000000000000000000000.
Proof. vm_compute. discriminate. Qed.

Lemma Qabs_sub_bound (y x d : Q) :
  Qabs (y - x) <= d -> Qabs y <= Qabs x + d.
Proof.
  intros H. apply Qabs_Qle_condition in H.
  apply Qabs_Qle_condition.
  pose proof (Qle_Qabs x). pose proof (Qle_Qabs (- x)).
  rewrite Qabs_opp in *. split; lra.
Qed.

(** Below [10^18] in magnitude, a rounding to binary64 is finite. *)
Lemma round64_finite (x : Q) :
  Qabs x <= 1000000000000000000 ->
  exists y : Q, round64 x = Fin y /\ Qabs (y - x) <= u64 * Qabs x + eta64.
Proof.
  intros B.
  destruct (Qeq_dec x 0) as [Z0 | Z0].
  - exists 0.
    assert (E : round64 x = Fin 0).
    { unfold round64, Qis0.
      assert (Qeq_bool x 0 = true) as -> by (apply Qeq_bool_iff; exact Z0).
      reflexivity. }
    split; [exact E | exact (round64_close x 0 E)].
  - pose proof (round64_value x Z0) as V.
    assert (E : exists y, round64 x = Fin y).
    { unfold round64, Qis0.
      assert (Qeq_bool x 0 = false) as -> by (apply Qeq_bool_false; exact Z0).
      set (y := inject_Z (Zrne (x / 2 ^ ulpExponent x)) * 2 ^ ulpExponent x) in *.
      assert (Hy : Qabs y < 2 ^ 1024).
      { apply Qabs_sub_bound in V.
        pose proof eta64_small.
        assert (u64 * Qabs x <= Qabs x).
        { assert (E : Qabs x == 1 * Qabs x) by ring.
          rewrite E at 2. apply Qmult_le_compat_r;
            [discriminate | apply Qabs_nonneg]. }
        assert (Big : 3000000000000000000 < 2 ^ 1024)
          by (vm_compute; reflexivity).
        lra. }
      assert (Qle_bool (2 ^ 1024) (Qabs y) = false) as ->
        by (apply Qle_bool_false; exact Hy).
      eexists. reflexivity. }
    destruct E as (y & E). exists y.
    split; [exact E | exact (round64_close x y E)].
Qed.

Lemma eta64_pos : 0 < eta64.
Proof. apply Qpow2_pos. Qed.

(** The rounding of a finite number that is at most [B] in magnitude. *)
Lemma rnd_fin_close (x B : Q) :
  Qabs x <= B -> B <= 1000000000000000000 ->
  exists y : Q,
    rnd (fin x) = Fin y /\
    x - (u64 * B + eta64) <= y /\ y <= x + (u64 * B + eta64).
Proof.
  intros HB Hbig. unfold fin. cbn [rnd].
  assert (HB' : Qabs (Qred x) <= 1000000000000000000)
    by (rewrite Qred_correct; lra).
  destruct (round64_finite (Qred x) HB') as (y & E & C).
  exists y. split; [exact E|].
  rewrite Qred_correct in C.
  assert (u64 * Qabs x <= u64 * B)
    by (apply Qmult_le_l; [reflexivity | exact HB]).
  apply Qabs_Qle_condition in C. split; lra.
Qed.

Lemma Qabs_le_iff (x B : Q) : Qabs x <= B <-> - B <= x /\ x <= B.
Proof. apply Qabs_Qle_condition. Qed.

Lemma Double_add_close (x y B : Q) :
  Qabs (x + y) <= B -> B <= 1000000000000000000 ->
  exists z : Q,
    Double.add (Fin x) (Fin y) = Fin z /\
    x + y - (u64 * B + eta64) <= z /\ z <= x + y + (u64 * B + eta64).
Proof.
  intros HB Hbig. unfold Double.add. rewrite nadd_Fin.
  exact (rnd_fin_close (x + y) B HB Hbig).
Qed.

Lemma Double_sub_close (x y B : Q) :
  Qabs (x - y) <= B -> B <= 1000000000000000000 ->
  exists z : Q,
    Double.sub (Fin x) (Fin y) = Fin z /\
    x - y - (u64 * B + eta64) <= z /\ z <= x - y + (u64 * B + eta64).
Proof.
  intros HB Hbig. unfold Double.sub. rewrite nsub_Fin.
  exact (rnd_fin_close (x - y) B HB Hbig).
Qed.

Lemma Zrne_bounds (q : Q) : (Qfloor q <= Zrne q <= Qfloor q + 1)%Z.
Proof.
  unfold Zrne.
  destruct (Qcompare _ _); [destruct (Z.even _)| |]; lia.
Qed.

Lemma Zrne_nonneg (q : Q) : 0 <= q -> (0 <= Zrne q)%Z.
Proof.
  intros H. pose proof (Zrne_bounds q) as [L _].
  assert (0 <= Qfloor q)%Z.
  { change 0%Z with (Qfloor 0). apply Qfloor_resp_le. exact H. }
  lia.
Qed.

Lemma Zrne_le_int (q : Q) (n : Z) : q <= inject_Z n -> (Zrne q <= n)%Z.
Proof.
  intros H. pose proof (Zrne_bounds q) as [_ U].
  pose proof (Qfloor_le q) as F.
  destruct (Z_lt_le_dec (Qfloor q) n) as [L | L]; [lia|].
  assert (E : Qfloor q = n).
  { apply Z.le_antisymm; [|exact L]. rewrite Zle_Qle. lra. }
  unfold Zrne. rewrite E.
  destruct (Qcompare_spec (q - inject_Z n) (1 # 2)) as [C | C | C];
    [exfalso; lra | lia | exfalso; lra].
Qed.

(** A rounding to binary64 does not turn a number above 0 into one
    below 0. *)
Lemma round64_nonneg (x y : Q) : 0 <= x -> round64 x = Fin y -> 0 <= y.
Proof.
  intros Hx. unfold round64.
  destruct (Qis0 x); [intros H; injection H as <-; lra|].
  destruct (Qle_bool _ _); [destruct (Qpos x); discriminate|].
  intros H. injection H as <-. rewrite Qred_correct.
  pose proof (Qpow2_pos (ulpExponent x)) as He.
  apply Qmult_le_0_compat; [|lra].
  change 0 with (inject_Z 0). rewrite <- Zle_Qle.
  apply Zrne_nonneg. apply Qle_shift_div_l; lra.
Qed.

Lemma Qabs_pos_eq (x : Q) : 0 <= x -> Qabs x = x.
Proof.
  destruct x as [n d]. unfold Qle, Qabs. cbn. intros H.
  rewrite Z.abs_eq by lia. reflexivity.
Qed.

(** A rounding to binary64 does not take a number up to 360 above 360. *)
Lemma round64_le_360 (x y : Q) :
  0 < x -> x <= 360 -> round64 x = Fin y -> y <= 360.
Proof.
  intros H0 Hx. unfold round64.
  destruct (Qis0 x); [intros H; injection H as <-; lra|].
  destruct (Qle_bool _ _); [destruct (Qpos x); discriminate|].
  intros H. injection H as <-. rewrite Qred_correct.
  set (e := ulpExponent x).
  pose proof (Qpow2_pos e) as He.
  assert (Hlog : (ilog2 (Qabs x) < 9)%Z).
  { rewrite (Qabs_pos_eq x) by lra.
    pose proof (ilog2_le x H0) as L.
    apply (Qpower_lt_compat_l_inv 2); [|reflexivity].
    change (2 ^ 9) with 512. lra. }
  assert (He3 : (e <= 3)%Z) by (unfold e, ulpExponent; lia).
  assert (E360 : 360 == inject_Z (45 * 2 ^ (3 - e)) * 2 ^ e).
  { rewrite inject_Z_mult, (Zpower_Qpower 2 (3 - e)) by lia.
    rewrite Qpower_minus by (intro H; discriminate).
    change (inject_Z 2) with 2. change (2 ^ 3) with 8.
    change (inject_Z 45) with 45. field. lra. }
  rewrite E360 at 1.
  apply Qmult_le_compat_r; [|lra].
  rewrite <- Zle_Qle. apply Zrne_le_int.
  apply Qle_shift_div_r; [lra|]. rewrite <- E360. exact Hx.
Qed.

(** A rounding to binary64 does not cross 180 or -180. *)
Lemma round64_within_180 (x y : Q) :
  - (180) <= x -> x <= 180 -> round64 x = Fin y -> - (180) <= y /\ y <= 180.
Proof.
  intros Hlo Hhi. unfold round64, Qis0.
  destruct (Qeq_bool x 0) eqn:Z0; [intros H; injection H as <-; split; lra|].
  apply Qeq_bool_false in Z0.
  destruct (Qle_bool _ _); [destruct (Qpos x); discriminate|].
  intros H. injection H as <-. rewrite Qred_correct.
  set (e := ulpExponent x).
  pose proof (Qpow2_pos e) as He.
  assert (Habs : 0 < Qabs x) by (apply Qabs_not0_pos; exact Z0).
  assert (Hlog : (ilog2 (Qabs x) < 8)%Z).
  { pose proof (ilog2_le (Qabs x) Habs) as L.
    apply (Qpower_lt_compat_l_inv 2); [|reflexivity].
    change (2 ^ 8) with 256.
    assert (Qabs x <= 180) by (apply Qabs_le_iff; split; lra). lra. }
  assert (He2 : (e <= 2)%Z) by (unfold e, ulpExponent; lia).
  assert (E180 : 180 == inject_Z (45 * 2 ^ (2 - e)) * 2 ^ e).
  { rewrite inject_Z_mult, (Zpower_Qpower 2 (2 - e)) by lia.
    rewrite Qpower_minus by (intro H; discriminate).
    change (inject_Z 2) with 2. change (2 ^ 2) with 4.
    change (inject_Z 45) with 45. field. lra. }
  set (N := (45 * 2 ^ (2 - e))%Z) in *.
  split.
  - assert (E : - (180) == inject_Z (- N) * 2 ^ e)
      by (rewrite inject_Z_opp; lra).
    rewrite E. apply Qmult_le_compat_r; [|lra].
    rewrite <- Zle_Qle.
    pose proof (Zrne_bounds (x / 2 ^ e)) as [L _].
    assert ((- N <= Qfloor (x / 2 ^ e))%Z); [|lia].
    rewrite <- (Qfloor_Z (- N)). apply Qfloor_resp_le.
    apply Qle_shift_div_l; [lra|]. rewrite <- E. exact Hlo.
  - rewrite E180 at 1.
    apply Qmult_le_compat_r; [|lra].
    rewrite <- Zle_Qle. apply Zrne_le_int.
    apply Qle_shift_div_r; [lra|]. rewrite <- E180. exact Hhi.
Qed.

(** [Double.addAngle] on finite numbers: an angle from 0 up to 360 that
    is the sum less a whole number of turns, up to two roundings. *)
Lemma Double_addAngle_close (x y B : Q) :
  Qabs (x + y) <= B -> B <= 100000000 ->
  exists (r : Q) (k : Z),
    Double.addAngle (Fin x) (Fin y) = Fin r /\
    (0 <= r /\ r < 360) /\
    x + y - (u64 * B + (1 # 10000000000000)) <= r + 360 * inject_Z k /\
    r + 360 * inject_Z k <= x + y + (u64 * B + (1 # 10000000000000)).
Proof.
  intros HB Hbig.
  pose proof eta64_small as Heta. pose proof eta64_pos as Heta0.
  assert (HB0 : 0 <= B) by (pose proof (Qabs_nonneg (x + y)); lra).
  destruct (Double_add_close x y B HB ltac:(lra)) as (s & Es & Ls & Us).
  unfold Double.addAngle. rewrite Es. unfold ngt.
  assert (HuB : 0 <= u64 * B) by (apply Qmult_le_0_compat; [discriminate | exact HB0]).
  cmp_cases C.
  - rewrite nrem_360. unfold fin.
    destruct (Qrem_nonneg s 360) as [L U]; [lra | lra |].
    assert (N : neq (Fin (Qred (Qrem s 360))) (Fin 360) = false).
    { apply neq_Fin_false. rewrite Qred_correct. lra. }
    rewrite N. exists (Qred (Qrem s 360)), (Qtrunc (s / 360)).
    split; [reflexivity|]. rewrite Qred_correct.
    pose proof (Qrem_multiple s 360) as M.
    split; [split; lra|]. split; lra.
  - rewrite nrem_360. unfold fin.
    destruct (Qrem_nonpos s 360) as [L U]; [lra | lra |].
    set (m := Qred (Qrem s 360)).
    assert (Hm : m == Qrem s 360) by apply Qred_correct.
    assert (Hb : Qabs (360 + m) <= 360).
    { apply Qabs_le_iff. split; lra. }
    destruct (Double_add_close 360 m 360 Hb ltac:(lra)) as (t & Et & Lt & Ut).
    rewrite Et.
    assert (Ht : 0 <= t /\ t <= 360).
    { unfold Double.add in Et. rewrite nadd_Fin in Et.
      unfold fin in Et. cbn [rnd] in Et.
      split.
      - apply (round64_nonneg (Qred (360 + m)));
          [rewrite Qred_correct; lra | exact Et].
      - apply (round64_le_360 (Qred (360 + m)));
          [rewrite Qred_correct; lra | rewrite Qred_correct; lra | exact Et]. }
    pose proof (Qrem_multiple s 360) as M.
    assert (Hu360 : u64 * 360 <= 1 # 20000000000000)
      by (unfold u64; vm_compute; discriminate).
    destruct (neq (Fin t) (Fin 360)) eqn:N;
      [apply neq_Fin in N | apply neq_Fin_false in N].
    + exists 0, (Qtrunc (s / 360)).
      split; [reflexivity|]. split; [split; lra|].
      split; lra.
    + exists t, (Qtrunc (s / 360) - 1)%Z.
      split; [reflexivity|].
      unfold Z.sub. rewrite inject_Z_plus, inject_Z_opp.
      change (inject_Z 1) with 1.
      split; [|split; lra].
      split; [tauto|].
      destruct (Qlt_le_dec t 360) as [P | P]; [exact P|].
      exfalso. apply N. lra.
Qed.

(** [Double.diffAngle] on finite numbers up to [10^6] in magnitude: a
    difference that, added to [a], gives [b] less a whole number of
    turns, up to three roundings. *)
Lemma Double_diffAngle_close (a b : Q) :
  Qabs a <= 1000000 -> Qabs b <= 1000000 ->
  exists (d : Q) (k : Z),
    Double.diffAngle (Fin a) (Fin b) = Fin d /\
    (- (180) <= d /\ d <= 180) /\
    b - (1 # 2500000000) <= a + d + 360 * inject_Z k /\
    a + d + 360 * inject_Z k <= b + (1 # 2500000000).
Proof.
  intros Ha Hb.
  pose proof eta64_small as Heta. pose proof eta64_pos as Heta0.
  apply Qabs_le_iff in Ha. apply Qabs_le_iff in Hb.
  unfold Double.diffAngle.
  assert (B1 : Qabs (180 - b) <= 1000180) by (apply Qabs_le_iff; split; lra).
  destruct (Double_sub_close 180 b 1000180 B1 ltac:(lra)) as (o & Eo & Lo & Uo).
  rewrite Eo. unfold u64 in Lo, Uo.
  assert (B2 : Qabs (a + o) <= 2000181) by (apply Qabs_le_iff; split; lra).
  destruct (Double_addAngle_close a o 2000181 B2 ltac:(lra))
    as (r & k & Er & Rr & Lr & Ur).
  rewrite Er. unfold u64 in Lr, Ur.
  assert (B3 : Qabs (180 - r) <= 180) by (apply Qabs_le_iff; split; lra).
  destruct (Double_sub_close 180 r 180 B3 ltac:(lra)) as (d & Ed & Ld & Ud).
  unfold u64 in Ld, Ud.
  exists d, (- k)%Z. split; [exact Ed|].
  rewrite inject_Z_opp.
  split; [|split; lra].
  unfold Double.sub in Ed. rewrite nsub_Fin in Ed.
  unfold fin in Ed. cbn [rnd] in Ed.
  apply (round64_within_180 (Qred (180 - r)));
    [rewrite Qred_correct; lra | rewrite Qred_correct; lra | exact Ed].
Qed.

(** C6, as the code has it.  On binary64 numbers the round trip holds up
    to rounding.  For [a] and [b] up to [10^6] in magnitude,
    [diffAngle(a, b)] is a difference [d] from -180 to 180, and
    normalizing [addAngle(a, d)] and normalizing [b], with [addAngle(x, 0)]
    for the normalization of [x], give two angles from 0 up to 360 that
    differ by at most [10^-9] once a whole number of turns, -1, 0 or 1,
    is taken off: they are within [10^-9] of each other, or one is within
    [10^-9] of 0 and the other within [10^-9] of 360. *)
Theorem diffAngle_round_trip_double (a b : Q) :
  Qabs a <= 1000000 -> Qabs b <= 1000000 ->
  exists (d l r : Q) (k : Z),
    Double.diffAngle (Fin a) (Fin b) = Fin d /\
    (- (180) <= d /\ d <= 180) /\
    Double.addAngle (Double.addAngle (Fin a) (Fin d)) (Fin 0) = Fin l /\
    Double.addAngle (Fin b) (Fin 0) = Fin r /\
    (0 <= l /\ l < 360) /\
    (0 <= r /\ r < 360) /\
    (-1 <= k <= 1)%Z /\
    Qabs (l - r - 360 * inject_Z k) <= 1 # 1000000000.
Proof.
  intros Ha Hb.
  destruct (Double_diffAngle_close a b Ha Hb) as (d & k1 & Ed & Rd & Ld & Ud).
  apply Qabs_le_iff in Ha. apply Qabs_le_iff in Hb.
  assert (B1 : Qabs (a + d) <= 1000181) by (apply Qabs_le_iff; split; lra).
  destruct (Double_addAngle_close a d 1000181 B1 ltac:(lra))
    as (x & k2 & Ex & Rx & Lx & Ux).
  unfold u64 in Lx, Ux.
  assert (B2 : Qabs (x + 0) <= 360) by (apply Qabs_le_iff; split; lra).
  destruct (Double_addAngle_close x 0 360 B2 ltac:(lra))
    as (l & k3 & El & Rl & Ll & Ul).
  unfold u64 in Ll, Ul.
  assert (B3 : Qabs (b + 0) <= 1000000) by (apply Qabs_le_iff; split; lra).
  destruct (Double_addAngle_close b 0 1000000 B3 ltac:(lra))
    as (r & k4 & Er & Rr & Lr & Ur).
  unfold u64 in Lr, Ur.
  set (k := (k4 - k1 - k2 - k3)%Z).
  assert (Hk : inject_Z k ==
               inject_Z k4 - inject_Z k1 - inject_Z k2 - inject_Z k3).
  { unfold k, Z.sub. rewrite !inject_Z_plus, !inject_Z_opp. ring. }
  assert (Hclose : - (1 # 1000000000) <= l - r - 360 * inject_Z k /\
                   l - r - 360 * inject_Z k <= 1 # 1000000000).
  { rewrite Hk. split; lra. }
  exists d, l, r, k.
  split; [exact Ed|]. split; [exact Rd|].
  split; [rewrite Ex; exact El|]. split; [exact Er|].
  split; [exact Rl|]. split; [exact Rr|].
  split; [|apply Qabs_le_iff; exact Hclose].
  assert (K1 : inject_Z k < 2) by lra.
  assert (K2 : - (2) < inject_Z k) by lra.
  change 2 with (inject_Z 2) in K1, K2.
  rewrite <- inject_Z_opp in K2.
  rewrite <- Zlt_Qlt in K1, K2. lia.
Qed.

Lemma diffAngle_round_trip_double_witness :
  exists (d l r : Q) (k : Z),
    Double.diffAngle (Fin 350) (Fin (-725)) = Fin d /\
    (- (180) <= d /\ d <= 180) /\
    Double.addAngle (Double.addAngle (Fin 350) (Fin d)) (Fin 0) = Fin l /\
    Double.addAngle (Fin (-725)) (Fin 0) = Fin r /\
    (0 <= l /\ l < 360) /\
    (0 <= r /\ r < 360) /\
    (-1 <= k <= 1)%Z /\
    Qabs (l - r - 360 * inject_Z k) <= 1 # 1000000000.
Proof.
  apply (diffAngle_round_trip_double 350 (-725)); vm_compute; discriminate.
Defined.

(** On binary64 numbers the round trip is not exact: from 0.1 and 0.3 it
    gives 0.30000000000001703, and the normalization of 0.3 is 0.3. *)
Lemma diffAngle_round_trip_not_exact :
  Double.diffAngle (literal (1 # 10)) (literal (3 # 10))
    = literal (20000000000001705 # 100000000000000000) /\
  Double.addAngle
    (Double.addAngle (literal (1 # 10))
       (Double.diffAngle (literal (1 # 10)) (literal (3 # 10)))) (Fin 0)
    = literal (30000000000001703 # 100000000000000000) /\
  Double.addAngle (literal (3 # 10)) (Fin 0) = literal (3 # 10) /\
  literal (30000000000001703 # 100000000000000000) <> literal (3 # 10).
Proof.
  vm_compute. repeat split. discriminate.
Qed.

Lemma Qrem_360_cases (x : Q) :
  (-360 < Qrem x 360 /\ Qrem x 360 < 360) /\
  x == Qrem x 360 + 360 * inject_Z (Qtrunc (x / 360)).
Proof.
  split; [|apply Qrem_multiple].
  destruct (Qlt_le_dec x 0) as [H | H].
  - destruct (Qrem_nonpos x 360 ltac:(lra) ltac:(lra)). lra.
  - destruct (Qrem_nonneg x 360 ltac:(lra) H). lra.
Qed.

Lemma Double_mul_close (x y B : Q) :
  Qabs (x * y) <= B -> B <= 1000000000000000000 ->
  exists z : Q,
    Double.mul (Fin x) (Fin y) = Fin z /\
    x * y - (u64 * B + eta64) <= z /\ z <= x * y + (u64 * B + eta64).
Proof.
  intros HB Hbig. unfold Double.mul. rewrite nmul_Fin.
  exact (rnd_fin_close (x * y) B HB Hbig).
Qed.

(** [Double.calcWheelRotationForTargetAngle], clockwise, from a rotation
    up to [10^6] in magnitude: the rotation returned puts the target
    angle a whole number of turns from 0, up to half a unit of the ninth
    decimal and five roundings. *)
Lemma Double_calcWheelRotation_close (cur target : Q) :
  Qabs cur <= 1000000 -> Qabs target <= 360 ->
  exists (R : Q) (k : Z),
    Double.calcWheelRotationForTargetAngle (Fin cur) (Fin target) (Fin 1)
      = Fin R /\
    (- (1000361) <= R /\ R <= 1000361) /\
    - (62 # 100000000000) <= R + target - 360 * inject_Z k /\
    R + target - 360 * inject_Z k <= 62 # 100000000000.
Proof.
  intros Hc Ht.
  pose proof eta64_small as Heta. pose proof eta64_pos as Heta0.
  apply Qabs_le_iff in Hc. apply Qabs_le_iff in Ht.
  unfold Double.calcWheelRotationForTargetAngle.
  rewrite nrem_360. unfold fin at 1.
  set (c0 := Qred (Qrem cur 360)).
  assert (H0 : c0 == Qrem cur 360) by apply Qred_correct.
  destruct (Qrem_360_cases cur) as [R0 M0].
  assert (B1 : Qabs (c0 + target) <= 720) by (apply Qabs_le_iff; split; lra).
  destruct (Double_add_close c0 target 720 B1 ltac:(lra)) as (s1 & E1 & L1 & U1).
  rewrite E1. unfold u64 in L1, U1.
  rewrite nrem_360. unfold fin at 1.
  set (c1 := Qred (Qrem s1 360)).
  assert (H1 : c1 == Qrem s1 360) by apply Qred_correct.
  destruct (Qrem_360_cases s1) as [R1 M1].
  unfold Double.fixFloat. cbn [toFixedNumber].
  pose proof (Qtofixed9_close c1) as F. unfold half_ulp9 in F.
  apply Qabs_le_iff in F.
  assert (B2 : Qabs (Qtofixed 9 c1) <= 361) by (apply Qabs_le_iff; split; lra).
  destruct (rnd_fin_close (Qtofixed 9 c1) 361 B2 ltac:(lra)) as (c2 & E2 & L2 & U2).
  rewrite E2. unfold u64 in L2, U2.
  change (neq (Fin 1) (Fin 1)) with true. cbv iota.
  assert (B3 : Qabs (360 - c2) <= 722) by (apply Qabs_le_iff; split; lra).
  destruct (Double_sub_close 360 c2 722 B3 ltac:(lra)) as (c3 & E3 & L3 & U3).
  rewrite E3. unfold u64 in L3, U3.
  rewrite nrem_360. unfold fin at 1.
  set (c4 := Qred (Qrem c3 360)).
  assert (H4 : c4 == Qrem c3 360) by apply Qred_correct.
  destruct (Qrem_360_cases c3) as [R4 M4].
  assert (B5 : Qabs (c4 * 1) <= 360) by (apply Qabs_le_iff; split; lra).
  destruct (Double_mul_close c4 1 360 B5 ltac:(lra)) as (c5 & E5 & L5 & U5).
  rewrite E5. unfold u64 in L5, U5.
  assert (B6 : Qabs (cur + c5) <= 1000361) by (apply Qabs_le_iff; split; lra).
  destruct (Double_add_close cur c5 1000361 B6 ltac:(lra)) as (R & E6 & L6 & U6).
  unfold u64 in L6, U6.
  set (k := (Qtrunc (cur / 360) + Qtrunc (s1 / 360) - Qtrunc (c3 / 360) + 1)%Z).
  assert (Hk : inject_Z k ==
               inject_Z (Qtrunc (cur / 360)) + inject_Z (Qtrunc (s1 / 360))
               - inject_Z (Qtrunc (c3 / 360)) + 1).
  { unfold k, Z.sub. rewrite !inject_Z_plus, !inject_Z_opp. reflexivity. }
  exists R, k. split; [exact E6|].
  split; [split; lra|].
  rewrite Hk. split; lra.
Qed.

Lemma Double_pushAngles_length (u l : num) (items : list Item) :
  List.length (Double.pushAngles u l items) = List.length items.
Proof.
  revert l. induction items as [|it items IH]; intros l; [reflexivity|].
  cbn [Double.pushAngles List.length]. now rewrite IH.
Qed.

Lemma Double_itemAngles_length (r : num) (items : list Item) :
  List.length (Double.itemAngles r items) = List.length items.
Proof.
  unfold Double.itemAngles.
  destruct (1 <? List.length items)%nat.
  - destruct (Double.pushAngles _ r items) as [|first rest] eqn:E.
    + rewrite <- E. apply Double_pushAngles_length.
    + rewrite setLastEnd_length, <- E. apply Double_pushAngles_length.
  - apply Double_pushAngles_length.
Qed.

Section SpinToItemDouble.

Variable easeSinOut : num -> num.

(** C5, as the code has it.  From a rotation up to [10^6] in magnitude,
    with the pointer at angle 0, [spinToItem] to the center of an item
    whose slice is from 0 to 90 at rotation 0, clockwise and with no
    extra revolution: the center angle the code reads for the item is
    45, and the target rotation [R] it sets puts that center, at [R + 45],
    a whole number of turns from the pointer angle up to [10^-9]: half a
    unit of the ninth decimal from the fixing to 9 decimals, and the
    roundings of the binary64 arithmetic. *)
Theorem spinToItem_center_double (w : Wheel) (itemIndex : nat) (duration : num)
    (easingFunction : option (num -> num)) (random now : num) (cur : Q) :
  _props w Rotation = VNum (Fin cur) ->
  Qabs cur <= 1000000 ->
  _props w PointerAngle = VNum (Fin 0) ->
  nth_error (Double.getItemAngles (Fin 0) w) itemIndex = Some slice0_90 ->
  Double.centerOf slice0_90 = Fin 45 /\
  exists (w' : Wheel) (R : Q) (k : Z),
    Double.spinToItem easeSinOut itemIndex duration true (Fin 0) (Fin 1)
      easingFunction random now w = Normal w' /\
    _spinToEndRotation w' = Fin R /\
    Qabs (R + 45 - valueOf (_pointerAngle w') - 360 * inject_Z k)
      <= 1 # 1000000000.
Proof.
  intros Hrot Hcur Hptr Hslice.
  split; [vm_compute; reflexivity|].
  pose proof eta64_small as Heta. pose proof eta64_pos as Heta0.
  unfold Double.getItemAngles in Hslice.
  assert (Hitem : exists it, nth_error (_items w) itemIndex = Some it).
  { destruct (nth_error (_items w) itemIndex) as [it|] eqn:E; [eauto|].
    apply nth_error_None in E.
    rewrite <- (Double_itemAngles_length (Fin 0)) in E.
    apply nth_error_None in E. congruence. }
  destruct Hitem as [it Hit].
  assert (Ht : Qabs 45 <= 360) by (vm_compute; discriminate).
  destruct (Double_calcWheelRotation_close cur 45 Hcur Ht)
    as (R0 & k & E0 & B0 & L0 & U0).
  assert (B1 : Qabs (R0 + 0) <= 1000361) by (apply Qabs_le_iff; split; lra).
  destruct (Double_add_close R0 0 1000361 B1 ltac:(lra)) as (R & E1 & L1 & U1).
  unfold u64 in L1, U1.
  unfold Double.spinToItem.
  change (_items (with_dragEvents [] (stop w))) with (_items w).
  change (Double.getItemAngles (Fin 0) (with_dragEvents [] (stop w)))
    with (Double.itemAngles (Fin 0) (_items w)).
  rewrite Hit, Hslice.
  change (_rotation (with_dragEvents [] (stop w))) with (numOf (_props w Rotation)).
  change (_pointerAngle (with_dragEvents [] (stop w)))
    with (numOf (_props w PointerAngle)).
  rewrite Hrot, Hptr. cbn [numOf].
  assert (E45 : Double.sub (Double.centerOf slice0_90) (Fin 0) = Fin 45)
    by (vm_compute; reflexivity).
  assert (E00 : Double.mul (Double.mul (Fin 0) (Fin 360)) (Fin 1) = Fin 0)
    by (vm_compute; reflexivity).
  rewrite E45, E0, E00, E1.
  eexists _, R, k.
  split; [reflexivity|]. split; [reflexivity|].
  change (_pointerAngle _) with (numOf (_props w PointerAngle)).
  rewrite Hptr. cbn [numOf valueOf].
  apply Qabs_le_iff. split; lra.
Qed.

End SpinToItemDouble.

Lemma spinToItem_center_double_witness :
  Double.centerOf slice0_90 = Fin 45 /\
  exists (w' : Wheel) (R : Q) (k : Z),
    Double.spinToItem (fun n => n) 0 (Fin 1000) true (Fin 0) (Fin 1) None
      (Fin 0) (Fin 0) fourSlicesTurned = Normal w' /\
    _spinToEndRotation w' = Fin R /\
    Qabs (R + 45 - valueOf (_pointerAngle w') - 360 * inject_Z k)
      <= 1 # 1000000000.
Proof.
  apply (spinToItem_center_double (fun n => n) fourSlicesTurned 0 (Fin 1000)
           None (Fin 0) (Fin 0) (-100));
    [reflexivity | vm_compute; discriminate | reflexivity
    | vm_compute; reflexivity].
Defined.













(** On binary64 numbers the target rotation can miss the pointer by more
    than the fixing to 9 decimals allows: from the rotation
    59179.7330096965 the center of the slice lands 69 / 2^37, which is
    more than [5 * 10^-10], before the pointer; and from [2^53], where
    the binary64 numbers are 2 apart, it lands 1 degree after it. *)
Lemma spinToItem_center_misses :
  _spinToEndRotation
    (wheelAfter
       (Double.spinToItem (fun n => n) 0 (Fin 1000) true (Fin 0) (Fin 1) None
          (Fin 0) (Fin 0)
          (fourSlicesAt (literal (591797330096965 # 10000000000)))))
    = literal (593549999999995 # 10000000000) /\
  literal (593549999999995 # 10000000000) = Fin (8157689083330491 # 137438953472) /\
  (8157689083330491 # 137438953472) + 45 - 360 * 165 == - (69 # 137438953472) /\
  half_ulp9 < 69 # 137438953472 /\
  _spinToEndRotation
    (wheelAfter
       (Double.spinToItem (fun n => n) 0 (Fin 1000) true (Fin 0) (Fin 1) None
          (Fin 0) (Fin 0) (fourSlicesAt (Fin 9007199254740992))))
    = Fin 9007199254741276 /\
  9007199254741276 + 45 - 360 * 25019997929837 == 1.
Proof.
  vm_compute. repeat split.
Qed.

(** The arithmetic of [Double] and the binary64 arithmetic of the kernel
    give the same sums, differences, products and quotients on every pair
    of the operands of [samples], overflows, divisions by 0 and results
    below the normal numbers included. *)
Example Double_agrees_with_binary64 :
  agreeOn Double.add PrimFloat.add = true /\
  agreeOn Double.sub PrimFloat.sub = true /\
  agreeOn Double.mul PrimFloat.mul = true /\
  agreeOn Double.div PrimFloat.div = true.
Proof. vm_compute. repeat split. Qed.
